(** * FireLink Lite: proximity fan-out and call signaling

    A shallow embedding of the server core of FireLink Lite:
    - [server/haversine.ts]  (module [Haversine]),
    - the private distance helper and the push-subscription query of
      [server/storage.ts]   (module [Storage]),
    - the realtime client registry of [server/routes.ts] (module [Routes]),
    - the WebRTC signaling server of [server/webrtc.ts] (module [Signaling]).

    Conventions.
    - A JavaScript [number] is read as a real number ([R] of the Standard
      Library): rounding, NaN and the infinities are not represented.  An
      optional or nullable number is an [option R]; it is truthy when it
      is present and different from zero.  Where rounding decides the
      outcome, as it does for the distance of nearly antipodal points,
      the code is read over binary64 instead (module [HaversineFloat]),
      with the engine's [Math.sin], [Math.cos] and [Math.atan2] as a
      parameter.
    - A JavaScript string-or-[undefined] value is an [option string]; it is
      truthy when it is present and not the empty string.
    - [Map<string, V>] used by key only is a [gmap string V]; a [Map] or a
      [Set] that the code iterates is kept as a list in insertion order.
    - Writing on a socket is recorded in an outbox: the list of
      (recipient, message) pairs in the order of the [socket.send] calls. *)

From Stdlib Require Import Reals Lra Lia List.
From Stdlib Require Floats.
From stdpp Require Import gmap strings list fin_maps.
Import ListNotations.

(** ** JavaScript truthiness of the values the handlers test *)

Definition truthy_num (x : option R) : bool :=
  match x with
  | Some v => if Req_dec_T v 0%R then false else true
  | None => false
  end.

Definition truthy_str (x : option string) : bool :=
  match x with
  | Some s => negb (String.eqb s "")
  | None => false
  end.

(** ** server/haversine.ts *)

Module Haversine.
Local Open Scope R_scope.

(** [Math.atan2(y, x)] on real arguments. *)
Definition atan2 (y x : R) : R :=
  if Rlt_dec 0 x then atan (y / x)
  else if Rlt_dec x 0 then
    (if Rle_dec 0 y then atan (y / x) + PI else atan (y / x) - PI)
  else if Rlt_dec 0 y then PI / 2
  else if Rlt_dec y 0 then - (PI / 2)
  else 0.

Definition toRadians (degrees : R) : R := degrees * (PI / 180).

(** [calculateDistance] in exact arithmetic.  There the term [a] never
    leaves [0, 1]; in binary64 it can round above 1, see
    [HaversineFloat.calculateDistance]. *)
Definition calculateDistance (lat1 lng1 lat2 lng2 : R) : R :=
  let R := 6371 in
  let dLat := toRadians (lat2 - lat1) in
  let dLng := toRadians (lng2 - lng1) in
  let a := sin (dLat / 2) * sin (dLat / 2) +
           cos (toRadians lat1) * cos (toRadians lat2) *
           sin (dLng / 2) * sin (dLng / 2) in
  let c := 2 * atan2 (sqrt a) (sqrt (1 - a)) in
  R * c.

Record Point := { lat : R; lng : R }.

Definition findPointsWithinRadius {T : Type} (coords : T -> Point)
    (centerLat centerLng : R) (points : list T) (radiusKm : R) : list T :=
  List.filter (fun point =>
    let distance := calculateDistance centerLat centerLng
                      (lat (coords point)) (lng (coords point)) in
    if Rle_dec distance radiusKm then true else false) points.

(** The formula as the specification words it: the deltas in radians, the
    haversine term [x], then [2 * atan2 (sqrt x) (sqrt (1 - x)) * 6371]. *)
Definition spec_haversine_term (lat1 lng1 lat2 lng2 : R) : R :=
  let dLat := (lat2 - lat1) * PI / 180 in
  let dLng := (lng2 - lng1) * PI / 180 in
  (sin (dLat / 2))² +
  cos (lat1 * PI / 180) * cos (lat2 * PI / 180) * (sin (dLng / 2))².

Definition spec_distanceKm (lat1 lng1 lat2 lng2 : R) : R :=
  let x := spec_haversine_term lat1 lng1 lat2 lng2 in
  2 * atan2 (sqrt x) (sqrt (1 - x)) * 6371.

(** The haversine term [a] of [calculateDistance], named for the proofs. *)
Definition hav (lat1 lng1 lat2 lng2 : R) : R :=
  sin (toRadians (lat2 - lat1) / 2) * sin (toRadians (lat2 - lat1) / 2) +
  cos (toRadians lat1) * cos (toRadians lat2) *
  sin (toRadians (lng2 - lng1) / 2) * sin (toRadians (lng2 - lng1) / 2).

Record BoundingBox := { minLat : R; maxLat : R; minLng : R; maxLng : R }.

Definition getBoundingBox (centerLat centerLng radiusKm : R) : BoundingBox :=
  let latDelta := radiusKm / 111.32 in
  let lngDelta := radiusKm / (111.32 * cos (toRadians centerLat)) in
  {| minLat := centerLat - latDelta;
     maxLat := centerLat + latDelta;
     minLng := centerLng - lngDelta;
     maxLng := centerLng + lngDelta |}.

(** A point lies in a box when both coordinates are within its bounds. *)
Definition in_box (b : BoundingBox) (plat plng : R) : Prop :=
  minLat b <= plat <= maxLat b /\ minLng b <= plng <= maxLng b.

End Haversine.

(** ** server/haversine.ts over binary64

    The same function on IEEE 754 doubles.  Addition, subtraction,
    multiplication, division, comparison and [Math.sqrt] are those of
    binary64; the sine, cosine and two-argument arctangent are the
    engine's, which the language leaves to the implementation. *)

Module HaversineFloat.
Import PrimFloat.
Local Open Scope float_scope.

Record MathLib := {
  sin : float -> float;
  cos : float -> float;
  atan2 : float -> float -> float
}.

(** [Math.PI] *)
Definition PI : float := 0x1.921fb54442d18p+1.

Section Engine.
Variable Math : MathLib.

Definition toRadians (degrees : float) : float := degrees * (PI / 180).

Definition calculateDistance (lat1 lng1 lat2 lng2 : float) : float :=
  let R := 6371 in
  let dLat := toRadians (lat2 - lat1) in
  let dLng := toRadians (lng2 - lng1) in
  let a := sin Math (dLat / 2) * sin Math (dLat / 2) +
           cos Math (toRadians lat1) * cos Math (toRadians lat2) *
           sin Math (dLng / 2) * sin Math (dLng / 2) in
  let c := 2 * atan2 Math (sqrt a) (sqrt (1 - a)) in
  R * c.

(** The term [a] of [calculateDistance], named for the statements. *)
Definition haversine_term (lat1 lng1 lat2 lng2 : float) : float :=
  let dLat := toRadians (lat2 - lat1) in
  let dLng := toRadians (lng2 - lng1) in
  sin Math (dLat / 2) * sin Math (dLat / 2) +
  cos Math (toRadians lat1) * cos Math (toRadians lat2) *
  sin Math (dLng / 2) * sin Math (dLng / 2).

(** [Math.atan2] answers NaN when its second argument is NaN, as the
    language requires. *)
Definition propagates_nan : Prop :=
  forall y x, is_nan x = true -> is_nan (atan2 Math y x) = true.

End Engine.

(** A few entries of a Math library: the doubles the GNU C library
    returns for the sines and cosines that the call
    [calculateDistance(-87.5, -180, 87.5, 0)] asks for.  No other entry
    is given: elsewhere the sine and cosine answer NaN, and the
    arctangent of two numbers answers 0. *)
Definition lookup (table : list (float * float)) (x : float) : float :=
  match List.find (fun e => fst e =? x) table with
  | Some e => snd e
  | None => nan
  end.

Definition sample_math : MathLib :=
  {| sin := lookup [(0x1.86f4291ecf2f4p+0, 0x1.ff833f9da45f7p-1);
                    (0x1.921fb54442d18p+0, 0x1p+0)];
     cos := lookup [(-0x1.86f4291ecf2f4p+0, 0x1.65547c4694e12p-5);
                    (0x1.86f4291ecf2f4p+0, 0x1.65547c4694e12p-5)];
     atan2 := fun y x => if is_nan y || is_nan x then nan else 0 |}.

End HaversineFloat.

(** ** Containers iterated in insertion order

    A JavaScript [Map] keeps its entries, and a [Set] its elements, in
    insertion order; [forEach], [values()] and [Array.from] visit them in
    that order.  Setting an existing key keeps its position. *)

Module Ordered.

Section AssocMap.
Context {V : Type}.

Definition JsMap := list (string * V).

Fixpoint get (k : string) (m : JsMap) : option V :=
  match m with
  | [] => None
  | (k', v) :: rest => if String.eqb k k' then Some v else get k rest
  end.

Fixpoint set (k : string) (v : V) (m : JsMap) : JsMap :=
  match m with
  | [] => [(k, v)]
  | (k', v') :: rest =>
      if String.eqb k k' then (k, v) :: rest else (k', v') :: set k v rest
  end.

Definition delete (k : string) (m : JsMap) : JsMap :=
  List.filter (fun e => negb (String.eqb k (fst e))) m.

Definition values (m : JsMap) : list V := List.map snd m.

End AssocMap.

(** [Set<string>]: no duplicates, insertion order. *)
Abbreviation JsSet := (list string).

Definition has (x : string) (s : JsSet) : bool :=
  List.existsb (String.eqb x) s.

Definition add (x : string) (s : JsSet) : JsSet :=
  if has x s then s else s ++ [x].

Definition remove (x : string) (s : JsSet) : JsSet :=
  List.filter (fun y => negb (String.eqb x y)) s.

End Ordered.

(** [WebSocket.readyState] *)
Inductive ReadyState := CONNECTING | OPEN | CLOSING | CLOSED.

Definition is_open (r : ReadyState) : bool :=
  match r with OPEN => true | _ => false end.

(** ** server/storage.ts: distance helper and push-subscription query *)

Module Storage.
Local Open Scope R_scope.

Record PushSubscription := {
  id : string;
  userId : option string;
  subscription : string;
  lat : option R;
  lng : option R;
  isActive : bool
}.

(** [MemStorage.calculateDistance], the private copy of the formula, in
    exact arithmetic like [Haversine.calculateDistance]. *)
Definition calculateDistance (lat1 lng1 lat2 lng2 : R) : R :=
  let R := 6371 in
  let dLat := (lat2 - lat1) * PI / 180 in
  let dLng := (lng2 - lng1) * PI / 180 in
  let a := sin (dLat / 2) * sin (dLat / 2) +
           cos (lat1 * PI / 180) * cos (lat2 * PI / 180) *
           sin (dLng / 2) * sin (dLng / 2) in
  let c := 2 * Haversine.atan2 (sqrt a) (sqrt (1 - a)) in
  R * c.

(** The body of the filter of [getPushSubscriptionsNearLocation]. *)
Definition near (lat0 lng0 radiusKm : R) (sub : PushSubscription) : bool :=
  if negb (truthy_num (lat sub)) || negb (truthy_num (lng sub))
     || negb (isActive sub)
  then false
  else
    match lat sub, lng sub with
    | Some slat, Some slng =>
        let distance := calculateDistance lat0 lng0 slat slng in
        if Rle_dec distance radiusKm then true else false
    | _, _ => false
    end.

Definition getPushSubscriptionsNearLocation
    (pushSubscriptions : Ordered.JsMap (V := PushSubscription))
    (lat0 lng0 radiusKm : R) : list PushSubscription :=
  List.filter (near lat0 lng0 radiusKm) (Ordered.values pushSubscriptions).

(** A subscription recorded at latitude 0, longitude 0. *)
Definition null_island_sub : PushSubscription :=
  {| id := "p1"; userId := None; subscription := "{}";
     lat := Some 0; lng := Some 0; isActive := true |}.

End Storage.

(** ** server/routes.ts: the registry of realtime clients *)

Module Routes.
Local Open Scope R_scope.

Record Client := {
  socket : ReadyState;
  userId : option string;
  role : option string;
  lat : option R;
  lng : option R
}.

Definition Registry := Ordered.JsMap (V := Client).

Record NearbyClient := { nc_id : string; nc_lat : R; nc_lng : R }.

Section Dispatch.
(** The messages are opaque to the dispatch functions. *)
Context {Msg : Type}.

Definition Outbox := list (string * Msg).

Definition sendToClient (connectedClients : Registry)
    (clientId : string) (message : Msg) : Outbox :=
  match Ordered.get clientId connectedClients with
  | Some client =>
      if is_open (socket client) then [(clientId, message)] else []
  | None => []
  end.

Definition broadcastToAll (connectedClients : Registry) (message : Msg)
    : Outbox :=
  List.flat_map (fun e => sendToClient connectedClients (fst e) message)
    connectedClients.

Definition notifyAgents (connectedClients : Registry) (message : Msg)
    : Outbox :=
  List.flat_map (fun e =>
      if decide (role (snd e) = Some "agent")
      then sendToClient connectedClients (fst e) message else [])
    connectedClients.

End Dispatch.

Definition findClientsWithinRadius (connectedClients : Registry)
    (lat0 lng0 radiusKm : R) : list NearbyClient :=
  List.flat_map (fun e =>
      let client := snd e in
      if truthy_num (lat client) && truthy_num (lng client)
         && bool_decide (role client = Some "community")
      then
        match lat client, lng client with
        | Some clat, Some clng =>
            let distance := Haversine.calculateDistance lat0 lng0 clat clng in
            if Rle_dec distance radiusKm
            then [{| nc_id := fst e; nc_lat := clat; nc_lng := clng |}]
            else []
        | _, _ => []
        end
      else [])
    connectedClients.

(** Frames written to the realtime clients. *)
Inductive Outbound :=
| connected (clientId : string)
| pong
| alert_new (alertId : string) (distance : R) (playRingtone : bool)
| event (type : string) (data : string).

(** Frames read from a realtime client, after [JSON.parse]. *)
Inductive Inbound :=
| register (userId role : option string) (lat lng : option R)
| location_update (lat lng : option R)
| ping
| unknown (type : string).

(** What happens to [connectedClients]: socket events and the calls made
    by the HTTP routes.  [Transport] is the socket changing its
    [readyState] under the entry that holds it; the handlers never do
    that themselves. *)
Inductive Action :=
| Connection (clientId : string)
| Closed (clientId : string)
| Transport (clientId : string) (readyState : ReadyState)
| Frame (clientId : string) (message : Inbound)
| PostAlert (alertId : string) (lat lng : R)
| BroadcastToAll (message : Outbound)
| NotifyAgents (message : Outbound).

Definition handleWebSocketMessage (connectedClients : Registry)
    (clientId : string) (message : Inbound)
    : Registry * Outbox (Msg := Outbound) :=
  match Ordered.get clientId connectedClients with
  | None => (connectedClients, [])
  | Some client =>
      match message with
      | register uid r la ln =>
          (Ordered.set clientId
             {| socket := socket client; userId := uid; role := r;
                lat := la; lng := ln |} connectedClients, [])
      | location_update la ln =>
          (Ordered.set clientId
             {| socket := socket client; userId := userId client;
                role := role client; lat := la; lng := ln |}
             connectedClients, [])
      | ping => (connectedClients, sendToClient connectedClients clientId pong)
      | unknown _ => (connectedClients, [])
      end
  end.

(** The realtime fan-out of [POST /api/alerts]: the nearby community
    clients within 200 m.  The handler then awaits the push notifications
    and only after that notifies the agents, which is a [NotifyAgents]
    action of its own, on the registry as it is by then. *)
Definition postAlert (connectedClients : Registry)
    (alertId : string) (alat alng : R) : Outbox (Msg := Outbound) :=
  let nearbyClients := findClientsWithinRadius connectedClients alat alng 0.2 in
  List.flat_map (fun client =>
      sendToClient connectedClients (nc_id client)
        (alert_new alertId
           (Haversine.calculateDistance alat alng (nc_lat client) (nc_lng client))
           true))
    nearbyClients.

Definition step (connectedClients : Registry) (a : Action)
    : Registry * Outbox (Msg := Outbound) :=
  match a with
  | Connection clientId =>
      let clients' :=
        Ordered.set clientId
          {| socket := OPEN; userId := None; role := None;
             lat := None; lng := None |} connectedClients in
      (clients', sendToClient clients' clientId (connected clientId))
  | Closed clientId => (Ordered.delete clientId connectedClients, [])
  | Transport clientId readyState =>
      match Ordered.get clientId connectedClients with
      | Some client =>
          (Ordered.set clientId
             {| socket := readyState; userId := userId client;
                role := role client; lat := lat client; lng := lng client |}
             connectedClients, [])
      | None => (connectedClients, [])
      end
  | Frame clientId message =>
      handleWebSocketMessage connectedClients clientId message
  | PostAlert alertId alat alng =>
      (connectedClients, postAlert connectedClients alertId alat alng)
  | BroadcastToAll message =>
      (connectedClients, broadcastToAll connectedClients message)
  | NotifyAgents message =>
      (connectedClients, notifyAgents connectedClients message)
  end.

Fixpoint run (connectedClients : Registry) (actions : list Action)
    : Registry * Outbox (Msg := Outbound) :=
  match actions with
  | [] => (connectedClients, [])
  | a :: rest =>
      let '(clients1, out1) := step connectedClients a in
      let '(clients2, out2) := run clients1 rest in
      (clients2, out1 ++ out2)
  end.

Definition keys_unique (connectedClients : Registry) : Prop :=
  List.NoDup (List.map fst connectedClients).

(** The actions that only deliver: the fan-out of a new alert, a
    broadcast, a notification of the agents. *)
Definition is_dispatch (a : Action) : bool :=
  match a with
  | PostAlert _ _ _ | BroadcastToAll _ | NotifyAgents _ => true
  | _ => false
  end.

(** Registries used in the examples: a community client on the Greenwich
    meridian, and a registry holding a closed socket. *)
Definition greenwich : Client :=
  {| socket := OPEN; userId := None; role := Some "community";
     lat := Some 51.5; lng := Some 0 |}.

Definition greenwich_registry : Registry :=
  fst (run [] [Connection "c1";
               Frame "c1" (register None (Some "community")
                             (Some 51.5) (Some 0))]).

Definition stale_registry : Registry :=
  fst (run [] [Connection "c1"; Connection "c2"; Transport "c1" CLOSED]).

Definition bonn_member : Client :=
  {| socket := OPEN; userId := None; role := Some "community";
     lat := Some 50.7; lng := Some 7.1 |}.

(** An agent and a community member registered near Bonn. *)
Definition bonn_registry : Registry :=
  fst (run [] [Connection "c1";
               Frame "c1" (register None (Some "agent") None None);
               Connection "c2";
               Frame "c2" (register None (Some "community")
                             (Some 50.7) (Some 7.1))]).

End Routes.

(** ** server/webrtc.ts: the signaling server *)

Module Signaling.

Record WebRTCConnection := {
  id : string;
  socket : ReadyState;
  role : option string;
  alertId : option string;
  userId : option string;
  isConnected : bool
}.

Inductive MessageType :=
| offer | answer | ice_candidate | join_call | leave_call
| other (type : string).

(** [message.data] is untyped: the three fields [join-call] reads from
    it, and the rest of the object as an opaque body. *)
Record Data := {
  d_alertId : option string;
  d_role : option string;
  d_userId : option string;
  d_body : string
}.

Record SignalingMessage := {
  type : MessageType;
  data : Data;
  from : option string;
  to : option string
}.

(** Frames the server writes. *)
Inductive Outgoing :=
| connection_established (connectionId : string)
| user_joined (connectionId : string) (role userId : option string)
| user_left (connectionId : string) (role : option string)
| agent_available (agentId : string)
| forwarded (type : MessageType) (data : Data) (from : string)
| incoming_call (agentId : string) (alertId : option string).

Definition Outbox := list (string * Outgoing).

Record Server := {
  connections : gmap string WebRTCConnection;
  activeRooms : gmap (option string) Ordered.JsSet
}.

Definition initial : Server := {| connections := ∅; activeRooms := ∅ |}.

Definition sendMessage (s : Server) (connectionId : string)
    (message : Outgoing) : Outbox :=
  match connections s !! connectionId with
  | Some connection =>
      if is_open (socket connection) then [(connectionId, message)] else []
  | None => []
  end.

Definition broadcastToRoom (s : Server) (alertId : option string)
    (message : Outgoing) (excludeId : option string) : Outbox :=
  match activeRooms s !! alertId with
  | None => []
  | Some room =>
      List.flat_map (fun connectionId =>
          if decide (Some connectionId = excludeId) then []
          else sendMessage s connectionId message)
        room
  end.

(** [conn?.role === "user"] for the connection registered under [id]. *)
Definition is_user (s : Server) (id : string) : bool :=
  match connections s !! id with
  | Some conn => bool_decide (role conn = Some "user")
  | None => false
  end.

Definition handleJoinCall (s : Server) (connectionId : string)
    (message : SignalingMessage) : Server * Outbox :=
  match connections s !! connectionId with
  | None => (s, [])
  | Some connection =>
      let alertId := d_alertId (data message) in
      let role := d_role (data message) in
      let userId := d_userId (data message) in
      let connection' :=
        {| id := id connection; socket := socket connection; role := role;
           alertId := alertId; userId := userId;
           isConnected := isConnected connection |} in
      let rooms0 :=
        match activeRooms s !! alertId with
        | None => <[alertId := []]> (activeRooms s)
        | Some _ => activeRooms s
        end in
      let s' :=
        {| connections := <[connectionId := connection']> (connections s);
           activeRooms := alter (Ordered.add connectionId) alertId rooms0 |} in
      let joined :=
        broadcastToRoom s' alertId (user_joined connectionId role userId)
          (Some connectionId) in
      let available :=
        if decide (role = Some "agent") then
          match activeRooms s' !! alertId with
          | Some room =>
              match List.find (is_user s') room with
              | Some userConnection =>
                  if truthy_str (Some userConnection)
                  then sendMessage s' userConnection (agent_available connectionId)
                  else []
              | None => []
              end
          | None => []
          end
        else [] in
      (s', joined ++ available)
  end.

(** [handleOffer], [handleAnswer] and [handleIceCandidate] differ only in
    the [type] they put on the forwarded frame. *)
Definition handleRelay (kind : MessageType) (s : Server) (fromId : string)
    (message : SignalingMessage) : Server * Outbox :=
  match to message with
  | Some target =>
      if truthy_str (Some target) && bool_decide (is_Some (connections s !! target))
      then (s, sendMessage s target (forwarded kind (data message) fromId))
      else (s, [])
  | None => (s, [])
  end.

Definition handleOffer := handleRelay offer.
Definition handleAnswer := handleRelay answer.
Definition handleIceCandidate := handleRelay ice_candidate.

Definition handleLeaveCall (s : Server) (connectionId : string)
    : Server * Outbox :=
  match connections s !! connectionId with
  | None => (s, [])
  | Some connection =>
      if negb (truthy_str (alertId connection)) then (s, [])
      else
        let alertId := alertId connection in
        let rooms' :=
          match activeRooms s !! alertId with
          | Some room =>
              let room' := Ordered.remove connectionId room in
              match room' with
              | [] => delete alertId (activeRooms s)
              | _ => <[alertId := room']> (activeRooms s)
              end
          | None => activeRooms s
          end in
        let s' := {| connections := connections s; activeRooms := rooms' |} in
        (s', broadcastToRoom s' alertId
               (user_left connectionId (role connection)) (Some connectionId))
  end.

Definition handleConnectionClose (s : Server) (connectionId : string)
    : Server * Outbox :=
  match connections s !! connectionId with
  | Some connection =>
      let '(s1, out) :=
        if truthy_str (alertId connection)
        then handleLeaveCall s connectionId
        else (s, []) in
      ({| connections := delete connectionId (connections s1);
          activeRooms := activeRooms s1 |}, out)
  | None => (s, [])
  end.

Definition handleSignalingMessage (s : Server) (fromId : string)
    (message : SignalingMessage) : Server * Outbox :=
  match connections s !! fromId with
  | None => (s, [])
  | Some _ =>
      match type message with
      | join_call => handleJoinCall s fromId message
      | offer => handleOffer s fromId message
      | answer => handleAnswer s fromId message
      | ice_candidate => handleIceCandidate s fromId message
      | leave_call => handleLeaveCall s fromId
      | other _ => (s, [])
      end
  end.

(** The socket events of one connection, and the transport changing the
    [readyState] of the socket a registered connection holds. *)
Inductive Event :=
| Connection (connectionId : string)
| Frame (fromId : string) (message : SignalingMessage)
| Closed (connectionId : string)
| Transport (connectionId : string) (readyState : ReadyState).

Definition onConnection (s : Server) (connectionId : string)
    : Server * Outbox :=
  let connection :=
    {| id := connectionId; socket := OPEN; role := Some "user";
       alertId := None; userId := None; isConnected := true |} in
  let s' := {| connections := <[connectionId := connection]> (connections s);
               activeRooms := activeRooms s |} in
  (s', sendMessage s' connectionId (connection_established connectionId)).

Definition setReadyState (rs : ReadyState) (c : WebRTCConnection)
    : WebRTCConnection :=
  {| id := id c; socket := rs; role := role c; alertId := alertId c;
     userId := userId c; isConnected := isConnected c |}.

Definition step (s : Server) (e : Event) : Server * Outbox :=
  match e with
  | Connection connectionId => onConnection s connectionId
  | Frame fromId message => handleSignalingMessage s fromId message
  | Closed connectionId => handleConnectionClose s connectionId
  | Transport connectionId rs =>
      ({| connections := alter (setReadyState rs) connectionId (connections s);
          activeRooms := activeRooms s |}, [])
  end.

(** A run of the server: the final state and everything written. *)
Fixpoint run (s : Server) (events : list Event) : Server * Outbox :=
  match events with
  | [] => (s, [])
  | e :: rest =>
      let '(s1, out1) := step s e in
      let '(s2, out2) := run s1 rest in
      (s2, out1 ++ out2)
  end.

(** *** Properties of the signaling state *)

(** Every member of every room is a registered connection. *)
Definition rooms_live (s : Server) : Prop :=
  forall (r : option string) (room : Ordered.JsSet) (member : string),
    activeRooms s !! r = Some room -> In member room ->
    is_Some (connections s !! member).

(** A registered connection whose socket is open. *)
Definition live (s : Server) (connectionId : string) : Prop :=
  exists c, connections s !! connectionId = Some c /\ socket c = OPEN.

Definition is_relay (t : MessageType) : bool :=
  match t with
  | offer | answer | ice_candidate => true
  | _ => false
  end.

(** [connectionId] is a member of no room other than [r]. *)
Definition in_no_other_room (s : Server) (connectionId : string)
    (r : option string) : bool :=
  List.forallb (fun e =>
      negb (Ordered.has connectionId (snd e)) || bool_decide (fst e = r))
    (map_to_list (activeRooms s)).

(** The events of a disciplined client population: identifiers are fresh
    when a connection opens, and a [join-call] names a truthy room and
    comes from a connection that is in no other room at that moment. *)
Definition admissible (s : Server) (e : Event) : bool :=
  match e with
  | Connection connectionId =>
      bool_decide (connections s !! connectionId = None)
  | Frame fromId message =>
      match type message with
      | join_call =>
          truthy_str (d_alertId (data message))
          && in_no_other_room s fromId (d_alertId (data message))
      | _ => true
      end
  | _ => true
  end.

Fixpoint disciplined (s : Server) (events : list Event) : bool :=
  match events with
  | [] => true
  | e :: rest => admissible s e && disciplined (fst (step s e)) rest
  end.

(** The invariant behind [rooms_live]: a member of room [r] is registered
    and has [r], a truthy identifier, recorded as its [alertId]. *)
Definition rooms_recorded (s : Server) : Prop :=
  forall (r : option string) (room : Ordered.JsSet) (member : string),
    activeRooms s !! r = Some room -> In member room ->
    exists c, connections s !! member = Some c /\ alertId c = r
              /\ truthy_str r = true.

(** Counting the notifications in an outbox. *)
Definition is_joined_about (about : string) (m : Outgoing) : bool :=
  match m with
  | user_joined connectionId _ _ => String.eqb connectionId about
  | _ => false
  end.

Definition is_left_about (about : string) (m : Outgoing) : bool :=
  match m with
  | user_left connectionId _ => String.eqb connectionId about
  | _ => false
  end.

Definition is_invite (m : Outgoing) : bool :=
  match m with
  | agent_available _ => true
  | _ => false
  end.

Definition received (recipient : string) (p : Outgoing -> bool)
    (out : Outbox) : nat :=
  length (List.filter (fun e => String.eqb (fst e) recipient && p (snd e)) out).

Definition invites (out : Outbox) : Outbox :=
  List.filter (fun e => is_invite (snd e)) out.

(** Frames used in the examples. *)
Definition join (room role : string) : SignalingMessage :=
  {| type := join_call;
     data := {| d_alertId := Some room; d_role := Some role;
                d_userId := None; d_body := "" |};
     from := None; to := None |}.

Definition leave : SignalingMessage :=
  {| type := leave_call;
     data := {| d_alertId := None; d_role := None;
                d_userId := None; d_body := "" |};
     from := None; to := None |}.

Definition sdp (kind : MessageType) (target body : string) : SignalingMessage :=
  {| type := kind;
     data := {| d_alertId := None; d_role := None;
                d_userId := None; d_body := body |};
     from := None; to := Some target |}.

(** Runs used in the examples. *)
Definition fresh_connection (connectionId : string) : WebRTCConnection :=
  {| id := connectionId; socket := OPEN; role := Some "user";
     alertId := None; userId := None; isConnected := true |}.

Definition two_connected : Server :=
  fst (run initial [Connection "x"; Connection "y"]).

Definition user_waiting : Server :=
  fst (run initial
         [Connection "u"; Connection "a"; Frame "u" (join "A" "user")]).

Definition trace_ok : list Event :=
  [Connection "u"; Connection "a"; Frame "u" (join "A" "user");
   Frame "a" (join "A" "agent"); Frame "a" leave;
   Frame "a" (join "B" "agent"); Transport "u" CLOSING; Closed "u"].

Definition trace_two_rooms : list Event :=
  [Connection "x"; Frame "x" (join "A" "user"); Frame "x" (join "B" "user");
   Closed "x"].

Definition trace_left : list Event :=
  [Connection "u"; Connection "a"; Frame "u" (join "A" "user");
   Frame "a" (join "A" "agent"); Frame "a" leave].

(** A user waits in room A behind a socket that is closing. *)
Definition user_unreachable : Server :=
  fst (run initial
         [Connection "u"; Frame "u" (join "A" "user"); Transport "u" CLOSING]).

(** *** The public methods *)

Definition initiateAgentCall (s : Server) (alertId agentId : string)
    : bool * Outbox :=
  match activeRooms s !! Some alertId with
  | None => (false, [])
  | Some room =>
      match List.find (is_user s) room with
      | Some userConnectionId =>
          if truthy_str (Some userConnectionId)
          then (true,
                sendMessage s userConnectionId
                  (incoming_call agentId (Some alertId)))
          else (false, [])
      | None => (false, [])
      end
  end.

Definition getActiveConnections (s : Server) : nat := size (connections s).

(** Every room of the index has at least one member. *)
Definition rooms_inhabited (s : Server) : Prop :=
  forall (r : option string) (room : list string),
    activeRooms s !! r = Some room -> room <> [].

End Signaling.

(** ** server/storage.ts: alerts and callback requests

    [new Date()] is a time stamp handed to the operation; [randomUUID()]
    is the identifier handed to it.  A key of a [Partial<...>] update is
    [None] when the key is absent and [Some v] when it is present with
    value [v] (which may itself be [undefined] or [null], a [None]). *)

Module Alerts.
Local Open Scope R_scope.

Definition Time := nat.

Record Alert := {
  id : string;
  lat : R;
  lng : R;
  reporterName : option string;
  reporterPhone : option string;
  message : option string;
  status : option string;
  alertType : option string;
  timestamp : Time;
  resolvedAt : option Time;
  assignedAgentId : option string
}.

Record InsertAlert := {
  ins_lat : R;
  ins_lng : R;
  ins_reporterName : option string;
  ins_reporterPhone : option string;
  ins_message : option string;
  ins_status : option string;
  ins_alertType : option string;
  ins_assignedAgentId : option string
}.

Record AlertPatch := {
  upd_lat : option R;
  upd_lng : option R;
  upd_reporterName : option (option string);
  upd_reporterPhone : option (option string);
  upd_message : option (option string);
  upd_status : option (option string);
  upd_alertType : option (option string);
  upd_assignedAgentId : option (option string)
}.

Definition AlertStore := Ordered.JsMap (V := Alert).

(** [{...alert, ...updates}] *)
Definition merge (alert : Alert) (updates : AlertPatch) : Alert :=
  {| id := id alert;
     lat := default (lat alert) (upd_lat updates);
     lng := default (lng alert) (upd_lng updates);
     reporterName := default (reporterName alert) (upd_reporterName updates);
     reporterPhone := default (reporterPhone alert) (upd_reporterPhone updates);
     message := default (message alert) (upd_message updates);
     status := default (status alert) (upd_status updates);
     alertType := default (alertType alert) (upd_alertType updates);
     timestamp := timestamp alert;
     resolvedAt := resolvedAt alert;
     assignedAgentId :=
       default (assignedAgentId alert) (upd_assignedAgentId updates) |}.

Definition setResolvedAt (t : option Time) (alert : Alert) : Alert :=
  {| id := id alert; lat := lat alert; lng := lng alert;
     reporterName := reporterName alert;
     reporterPhone := reporterPhone alert; message := message alert;
     status := status alert; alertType := alertType alert;
     timestamp := timestamp alert; resolvedAt := t;
     assignedAgentId := assignedAgentId alert |}.

Definition getAlert (alerts : AlertStore) (alertId : string) : option Alert :=
  Ordered.get alertId alerts.

Definition is_active (alert : Alert) : bool :=
  bool_decide (status alert = Some "active").

Definition getActiveAlerts (alerts : AlertStore) : list Alert :=
  List.filter is_active (Ordered.values alerts).

Definition getAlertsNearLocation (alerts : AlertStore)
    (lat0 lng0 radiusKm : R) : list Alert :=
  List.filter (fun alert =>
      let distance :=
        Storage.calculateDistance lat0 lng0 (lat alert) (lng alert) in
      (if Rle_dec distance radiusKm then true else false) && is_active alert)
    (Ordered.values alerts).

Definition createAlert (alerts : AlertStore) (newId : string) (now : Time)
    (insertAlert : InsertAlert) : AlertStore * Alert :=
  let alert :=
    {| id := newId; lat := ins_lat insertAlert; lng := ins_lng insertAlert;
       reporterName := ins_reporterName insertAlert;
       reporterPhone := ins_reporterPhone insertAlert;
       message := ins_message insertAlert;
       status := ins_status insertAlert;
       alertType := ins_alertType insertAlert;
       timestamp := now; resolvedAt := None; assignedAgentId := None |} in
  (Ordered.set newId alert alerts, alert).

Definition updateAlert (alerts : AlertStore) (alertId : string) (now : Time)
    (updates : AlertPatch) : AlertStore * option Alert :=
  match Ordered.get alertId alerts with
  | None => (alerts, None)
  | Some alert =>
      let updatedAlert := merge alert updates in
      let updatedAlert :=
        if bool_decide (upd_status updates = Some (Some "resolved"))
           && negb (bool_decide (is_Some (resolvedAt updatedAlert)))
        then setResolvedAt (Some now) updatedAlert
        else updatedAlert in
      (Ordered.set alertId updatedAlert alerts, Some updatedAlert)
  end.

(** The storage call of [PATCH /api/alerts/:id]: the body's [status] and
    [assignedAgentId || req.user.id]; both keys are always present. *)
Definition patchAlert (alerts : AlertStore) (alertId : string) (now : Time)
    (bodyStatus bodyAssignedAgentId : option string) (userId : string)
    : AlertStore * option Alert :=
  updateAlert alerts alertId now
    {| upd_lat := None; upd_lng := None; upd_reporterName := None;
       upd_reporterPhone := None; upd_message := None;
       upd_status := Some bodyStatus; upd_alertType := None;
       upd_assignedAgentId :=
         Some (if truthy_str bodyAssignedAgentId then bodyAssignedAgentId
               else Some userId) |}.

Record CallbackRequest := {
  cb_id : string;
  cb_alertId : string;
  cb_requesterName : string;
  cb_requesterPhone : string;
  cb_preferredTime : option string;
  cb_status : option string;
  cb_timestamp : Time;
  cb_completedAt : option Time
}.

Definition getPendingCallbackRequests
    (callbackRequests : Ordered.JsMap (V := CallbackRequest))
    : list CallbackRequest :=
  List.filter (fun req => bool_decide (cb_status req = Some "pending"))
    (Ordered.values callbackRequests).

(** [GET /api/stats] *)
Record Stats := {
  activeAlerts : nat;
  inProgress : nat;
  resolved : nat;
  callbacks : nat
}.

Definition getStats (alerts : AlertStore)
    (callbackRequests : Ordered.JsMap (V := CallbackRequest)) : Stats :=
  let active := getActiveAlerts alerts in
  let pending := getPendingCallbackRequests callbackRequests in
  {| activeAlerts :=
       length (List.filter
                 (fun a => bool_decide (status a = Some "active")) active);
     inProgress :=
       length (List.filter
                 (fun a => bool_decide (status a = Some "in_progress")) active);
     resolved := 0%nat;
     callbacks := length pending |}.

(** Values used in the examples. *)
Definition sample_alert : Alert :=
  {| id := "a1"; lat := 0; lng := 0; reporterName := None;
     reporterPhone := None; message := None; status := Some "active";
     alertType := Some "fire"; timestamp := 5%nat; resolvedAt := Some 7%nat;
     assignedAgentId := None |}.

Definition resolve_patch : AlertPatch :=
  {| upd_lat := None; upd_lng := None; upd_reporterName := None;
     upd_reporterPhone := None; upd_message := None;
     upd_status := Some (Some "resolved"); upd_alertType := None;
     upd_assignedAgentId := None |}.

Definition sample_insert : InsertAlert :=
  {| ins_lat := 0; ins_lng := 0; ins_reporterName := None;
     ins_reporterPhone := None; ins_message := Some "smoke";
     ins_status := Some "active"; ins_alertType := Some "fire";
     ins_assignedAgentId := Some "agent-7" |}.

End Alerts.

(** ** Push subscriptions: server/storage.ts and server/push.ts *)

Module Push.
Import Storage.
Local Open Scope R_scope.

Definition SubscriptionStore := Ordered.JsMap (V := PushSubscription).

Record InsertPushSubscription := {
  ins_userId : option string;
  ins_subscription : string;
  ins_lat : option R;
  ins_lng : option R;
  ins_isActive : bool
}.

Record PushPatch := {
  upd_userId : option (option string);
  upd_subscription : option string;
  upd_lat : option (option R);
  upd_lng : option (option R);
  upd_isActive : option bool
}.

Definition createPushSubscription (subs : SubscriptionStore)
    (newId : string) (insertSubscription : InsertPushSubscription)
    : SubscriptionStore * PushSubscription :=
  let subscription :=
    {| id := newId; userId := ins_userId insertSubscription;
       subscription := ins_subscription insertSubscription;
       lat := ins_lat insertSubscription; lng := ins_lng insertSubscription;
       isActive := ins_isActive insertSubscription |} in
  (Ordered.set newId subscription subs, subscription).

Definition updatePushSubscription (subs : SubscriptionStore)
    (subId : string) (updates : PushPatch)
    : SubscriptionStore * option PushSubscription :=
  match Ordered.get subId subs with
  | None => (subs, None)
  | Some sub =>
      let updatedSubscription :=
        {| id := id sub;
           userId := default (userId sub) (upd_userId updates);
           subscription := default (subscription sub) (upd_subscription updates);
           lat := default (lat sub) (upd_lat updates);
           lng := default (lng sub) (upd_lng updates);
           isActive := default (isActive sub) (upd_isActive updates) |} in
      (Ordered.set subId updatedSubscription subs, Some updatedSubscription)
  end.

Definition deletePushSubscription (subs : SubscriptionStore) (subId : string)
    : SubscriptionStore * bool :=
  (Ordered.delete subId subs,
   bool_decide (is_Some (Ordered.get subId subs))).

(** [subscribeToPush]; the store never throws, so the result is [true]. *)
Definition subscribeToPush (subs : SubscriptionStore) (newId : string)
    (user : string) (subscriptionJson : string) (plat plng : option R)
    : SubscriptionStore * bool :=
  (fst (createPushSubscription subs newId
          {| ins_userId := Some user; ins_subscription := subscriptionJson;
             ins_lat := plat; ins_lng := plng; ins_isActive := true |}),
   true).

(** [updatePushLocation]: the subscriptions "near" the new place within
    999999 km, the first active one of the user, its coordinates
    replaced. *)
Definition updatePushLocation (subs : SubscriptionStore) (user : string)
    (plat plng : R) : SubscriptionStore * bool :=
  let subscriptions := getPushSubscriptionsNearLocation subs plat plng 999999 in
  match List.find (fun sub =>
            bool_decide (userId sub = Some user) && isActive sub)
          subscriptions with
  | Some userSubscription =>
      (fst (updatePushSubscription subs (id userSubscription)
              {| upd_userId := None; upd_subscription := None;
                 upd_lat := Some (Some plat); upd_lng := Some (Some plng);
                 upd_isActive := None |}),
       true)
  | None => (subs, false)
  end.

(** A subscription that a proximity query can return: active, with both
    coordinates truthy. *)
Definition locatable (sub : PushSubscription) : bool :=
  truthy_num (lat sub) && truthy_num (lng sub) && isActive sub.

(** Values used in the examples. *)
Definition located_sub : PushSubscription :=
  {| id := "p2"; userId := Some "bob"; subscription := "{}";
     lat := Some 51.5; lng := Some 7; isActive := true |}.

Definition unlocated_sub : PushSubscription :=
  {| id := "p3"; userId := Some "eve"; subscription := "{}";
     lat := None; lng := None; isActive := true |}.

End Push.

(** * Theorems *)

(** ** The distance formula *)

Module HaversineFacts.
Import Haversine.
Local Open Scope R_scope.

Lemma calculateDistance_unfold lat1 lng1 lat2 lng2 :
  calculateDistance lat1 lng1 lat2 lng2 =
  6371 * (2 * atan2 (sqrt (hav lat1 lng1 lat2 lng2))
                    (sqrt (1 - hav lat1 lng1 lat2 lng2))).
Proof. reflexivity. Qed.

Lemma toRadians_scale d : toRadians d = d * PI / 180.
Proof. unfold toRadians. field. Qed.

Lemma toRadians_minus x y : toRadians (x - y) = toRadians x - toRadians y.
Proof. unfold toRadians. ring. Qed.

Lemma half_delta_swap x y :
  toRadians (x - y) / 2 = - (toRadians (y - x) / 2).
Proof. unfold toRadians. field. Qed.

Lemma sin_sq_opp x : sin (- x) * sin (- x) = sin x * sin x.
Proof. rewrite sin_neg. ring. Qed.

Lemma sin_half_sq x : sin (x / 2) * sin (x / 2) = (1 - cos x) / 2.
Proof.
  pose proof (cos_2a_sin (x / 2)) as H.
  replace (2 * (x / 2)) with x in H by field. lra.
Qed.

Lemma hav_sym lat1 lng1 lat2 lng2 :
  hav lat1 lng1 lat2 lng2 = hav lat2 lng2 lat1 lng1.
Proof.
  unfold hav.
  rewrite (half_delta_swap lat1 lat2), (half_delta_swap lng1 lng2).
  rewrite sin_sq_opp.
  rewrite !Rmult_assoc, sin_sq_opp. ring.
Qed.

Lemma hav_same lat1 lng1 : hav lat1 lng1 lat1 lng1 = 0.
Proof.
  unfold hav.
  replace (toRadians (lat1 - lat1) / 2) with 0 by (unfold toRadians; field).
  replace (toRadians (lng1 - lng1) / 2) with 0 by (unfold toRadians; field).
  rewrite sin_0. ring.
Qed.

(** The haversine term is the half-chord squared of two unit vectors: in
    exact arithmetic it stays within [0, 1], so both square roots of
    [calculateDistance] are taken of non-negative numbers. *)
Lemma hav_range lat1 lng1 lat2 lng2 :
  0 <= hav lat1 lng1 lat2 lng2 <= 1.
Proof.
  unfold hav. rewrite !Rmult_assoc, !sin_half_sq.
  rewrite toRadians_minus, cos_minus.
  set (t := cos (toRadians (lng2 - lng1))).
  pose proof (COS_bound (toRadians (lng2 - lng1))) as [Ht1 Ht2].
  fold t in Ht1, Ht2.
  pose proof (sin2_cos2 (toRadians lat1)) as H1.
  pose proof (sin2_cos2 (toRadians lat2)) as H2.
  unfold Rsqr in H1, H2.
  set (p1 := sin (toRadians lat1)) in *. set (q1 := cos (toRadians lat1)) in *.
  set (p2 := sin (toRadians lat2)) in *. set (q2 := cos (toRadians lat2)) in *.
  pose proof (Rle_0_sqr (p1 - p2)) as Sa. pose proof (Rle_0_sqr (q1 - q2)) as Sb.
  pose proof (Rle_0_sqr (p1 + p2)) as Sc. pose proof (Rle_0_sqr (q1 + q2)) as Sd.
  unfold Rsqr in Sa, Sb, Sc, Sd.
  assert (Ha : 0 <= 1 - (q2 * q1 + p2 * p1)) by nra.
  assert (Hb : 0 <= 1 + (q2 * q1 + p2 * p1)) by nra.
  assert (Hc : 0 <= 1 + (q1 * q2 - p1 * p2)) by nra.
  assert (Hd : 0 <= 1 - (q1 * q2 - p1 * p2)) by nra.
  split; nra.
Qed.

Lemma atan_nonneg x : 0 <= x -> 0 <= atan x.
Proof.
  intros [Hx | <-].
  - left. rewrite <- atan_0. now apply atan_increasing.
  - rewrite atan_0. lra.
Qed.

Lemma atan2_nonneg y x : 0 <= y -> 0 <= x -> 0 <= atan2 y x.
Proof.
  intros Hy Hx. unfold atan2.
  destruct (Rlt_dec 0 x) as [Hpos | _].
  - apply atan_nonneg. apply Rmult_le_pos; [exact Hy|].
    left. now apply Rinv_0_lt_compat.
  - destruct (Rlt_dec x 0) as [Hneg | _]; [lra|].
    destruct (Rlt_dec 0 y) as [_ | _].
    + pose proof PI_RGT_0. lra.
    + destruct (Rlt_dec y 0); lra.
Qed.

Lemma atan2_quarter y x : 0 <= y -> 0 <= x -> atan2 y x <= PI / 2.
Proof.
  intros Hy Hx. unfold atan2. pose proof PI_RGT_0.
  destruct (Rlt_dec 0 x) as [Hpos | _].
  - pose proof (atan_bound (y / x)). lra.
  - destruct (Rlt_dec x 0) as [Hneg | _]; [lra|].
    destruct (Rlt_dec 0 y); [lra|].
    destruct (Rlt_dec y 0); lra.
Qed.

Lemma atan2_0_1 : atan2 0 1 = 0.
Proof.
  unfold atan2. destruct (Rlt_dec 0 1) as [_ | H]; [|lra].
  replace (0 / 1) with 0 by field. apply atan_0.
Qed.

Lemma calculateDistance_sym lat1 lng1 lat2 lng2 :
  calculateDistance lat1 lng1 lat2 lng2 = calculateDistance lat2 lng2 lat1 lng1.
Proof. rewrite !calculateDistance_unfold. now rewrite hav_sym. Qed.

Lemma calculateDistance_same lat1 lng1 :
  calculateDistance lat1 lng1 lat1 lng1 = 0.
Proof.
  rewrite calculateDistance_unfold, hav_same.
  rewrite Rminus_0_r, sqrt_0, sqrt_1, atan2_0_1. ring.
Qed.

Lemma calculateDistance_nonneg lat1 lng1 lat2 lng2 :
  0 <= calculateDistance lat1 lng1 lat2 lng2.
Proof.
  rewrite calculateDistance_unfold.
  pose proof (atan2_nonneg _ _ (sqrt_pos (hav lat1 lng1 lat2 lng2))
                (sqrt_pos (1 - hav lat1 lng1 lat2 lng2))).
  lra.
Qed.

(** In exact arithmetic no two points are further apart than half the
    circumference. *)
Lemma calculateDistance_upper lat1 lng1 lat2 lng2 :
  calculateDistance lat1 lng1 lat2 lng2 <= 6371 * PI.
Proof.
  rewrite calculateDistance_unfold.
  pose proof (atan2_quarter _ _ (sqrt_pos (hav lat1 lng1 lat2 lng2))
                (sqrt_pos (1 - hav lat1 lng1 lat2 lng2))).
  lra.
Qed.

Lemma hav_spec_term lat1 lng1 lat2 lng2 :
  hav lat1 lng1 lat2 lng2 = spec_haversine_term lat1 lng1 lat2 lng2.
Proof.
  unfold hav, spec_haversine_term, Rsqr. rewrite !toRadians_scale. ring.
Qed.

(** The private copy in [storage.ts] computes the same distance. *)
Lemma storage_calculateDistance lat1 lng1 lat2 lng2 :
  Storage.calculateDistance lat1 lng1 lat2 lng2 =
  calculateDistance lat1 lng1 lat2 lng2.
Proof.
  rewrite calculateDistance_unfold. unfold Storage.calculateDistance.
  cbv zeta.
  replace (sin ((lat2 - lat1) * PI / 180 / 2) * sin ((lat2 - lat1) * PI / 180 / 2) +
           cos (lat1 * PI / 180) * cos (lat2 * PI / 180) *
           sin ((lng2 - lng1) * PI / 180 / 2) * sin ((lng2 - lng1) * PI / 180 / 2))
    with (hav lat1 lng1 lat2 lng2)
    by (unfold hav; rewrite !toRadians_scale; reflexivity).
  reflexivity.
Qed.

(** In exact arithmetic the formula gives half the circumference for
    antipodal points. *)
Lemma spec_distanceKm_antipodal lat1 lng1 :
  spec_distanceKm lat1 lng1 (- lat1) (lng1 + 180) = 6371 * PI.
Proof.
  unfold spec_distanceKm.
  assert (Hx : spec_haversine_term lat1 lng1 (- lat1) (lng1 + 180) = 1).
  { unfold spec_haversine_term. cbv zeta.
    replace ((- lat1 - lat1) * PI / 180 / 2) with (- (lat1 * PI / 180))
      by field.
    replace ((lng1 + 180 - lng1) * PI / 180 / 2) with (PI / 2) by field.
    replace (- lat1 * PI / 180) with (- (lat1 * PI / 180)) by field.
    rewrite sin_neg, cos_neg, sin_PI2.
    pose proof (sin2_cos2 (lat1 * PI / 180)) as H. unfold Rsqr in *. lra. }
  rewrite Hx. replace (1 - 1) with 0 by ring. rewrite sqrt_1, sqrt_0.
  unfold atan2. destruct (Rlt_dec 0 0) as [H | _]; [lra|].
  destruct (Rlt_dec 0 1) as [_ | H]; [field | lra].
Qed.

End HaversineFacts.

(** ** The distance formula over binary64 *)

Module FloatFacts.
Import PrimFloat SpecFloat FloatOps FloatAxioms HaversineFloat.
Local Open Scope float_scope.

Lemma SFeqb_irrefl_nan x : SFeqb x x = false -> x = S754_nan.
Proof.
  destruct x as [s | s | | s m e]; unfold SFeqb; simpl; try discriminate.
  - now destruct s.
  - reflexivity.
  - destruct s; rewrite Z.compare_refl, Pos.compare_cont_refl; discriminate.
Qed.

Lemma is_nan_spec x : is_nan x = true <-> Prim2SF x = S754_nan.
Proof.
  unfold is_nan. rewrite eqb_spec, negb_true_iff. split.
  - apply SFeqb_irrefl_nan.
  - now intros ->.
Qed.

(** [Math.sqrt] of a negative number is NaN. *)
Lemma sqrt_negative x : (x <? 0) = true -> is_nan (sqrt x) = true.
Proof.
  rewrite ltb_spec, is_nan_spec, sqrt_spec.
  change (Prim2SF 0) with (S754_zero false).
  destruct (Prim2SF x) as [s | s | | s m e]; unfold SFltb; simpl;
    try discriminate; destruct s; try discriminate; reflexivity.
Qed.

Lemma mul_nan x y : is_nan y = true -> is_nan (x * y) = true.
Proof.
  rewrite !is_nan_spec, mul_spec. intros ->.
  unfold SF64mul, SFmul. now destruct (Prim2SF x).
Qed.

Lemma nan_not_leb x y : is_nan y = true -> (x <=? y) = false.
Proof.
  rewrite is_nan_spec, leb_spec. intros ->. unfold SFleb.
  now destruct (Prim2SF x).
Qed.

Lemma nan_not_eqb x y : is_nan x = true -> (x =? y) = false.
Proof.
  rewrite is_nan_spec, eqb_spec. intros ->. reflexivity.
Qed.

Lemma calculateDistance_term Math lat1 lng1 lat2 lng2 :
  calculateDistance Math lat1 lng1 lat2 lng2 =
  6371 * (2 * atan2 Math (sqrt (haversine_term Math lat1 lng1 lat2 lng2))
                (sqrt (1 - haversine_term Math lat1 lng1 lat2 lng2))).
Proof. reflexivity. Qed.

Lemma sample_propagates : propagates_nan sample_math.
Proof.
  intros y x Hx. simpl. rewrite Hx, orb_true_r. reflexivity.
Qed.

(** C2. The result should be the value of the haversine formula, which
    for antipodal points is [6371 * PI] km.  For the antipodal points
    (-87.5, -180) and (87.5, 0) the sines and cosines of the sample
    library make the term [a] round to the double after 1, the square
    root of [1 - a] is NaN, and so is the result. *)
Theorem calculateDistance_antipodal_nan :
  Haversine.spec_distanceKm (-87.5) (-180) 87.5 0 = (6371 * Rtrigo1.PI)%R
  /\ haversine_term sample_math (-87.5) (-180) 87.5 0 = 0x1.0000000000001p+0
  /\ is_nan (sqrt (1 - haversine_term sample_math (-87.5) (-180) 87.5 0)) = true
  /\ is_nan (calculateDistance sample_math (-87.5) (-180) 87.5 0) = true.
Proof.
  split.
  - replace 87.5%R with (- (-87.5))%R by lra.
    replace 0%R with (-180 + 180)%R by lra.
    apply HaversineFacts.spec_distanceKm_antipodal.
  - repeat split; vm_compute; reflexivity.
Qed.

(** C9. The distance should be symmetric and never negative.  Whatever
    the engine's sine and cosine, as soon as they make [1 - a] negative
    the result is NaN: it is not [>= 0] and it is equal to no number, the
    result of the swapped call included. *)
Theorem nan_distance_breaks_metric Math lat1 lng1 lat2 lng2 :
  propagates_nan Math ->
  (1 - haversine_term Math lat1 lng1 lat2 lng2 <? 0) = true ->
  let d := calculateDistance Math lat1 lng1 lat2 lng2 in
  is_nan d = true
  /\ (0 <=? d) = false
  /\ (d =? calculateDistance Math lat2 lng2 lat1 lng1) = false
  /\ forall d', (d =? d') = false.
Proof.
  intros Hlib Hneg d.
  assert (Hd : is_nan d = true).
  { unfold d. rewrite calculateDistance_term.
    apply mul_nan, mul_nan, Hlib, sqrt_negative. exact Hneg. }
  split; [exact Hd|]. split; [now apply nan_not_leb|].
  split; [now apply nan_not_eqb|].
  intros d'. now apply nan_not_eqb.
Qed.

Lemma nan_distance_breaks_metric_witness :
  let d := calculateDistance sample_math (-87.5) (-180) 87.5 0 in
  is_nan d = true
  /\ (0 <=? d) = false
  /\ (d =? calculateDistance sample_math 87.5 0 (-87.5) (-180)) = false
  /\ forall d', (d =? d') = false.
Proof.
  apply (nan_distance_breaks_metric sample_math (-87.5) (-180) 87.5 0).
  - exact sample_propagates.
  - vm_compute. reflexivity.
Defined.

End FloatFacts.

(** ** Insertion-ordered maps *)

Module OrderedFacts.
Import Ordered.
Section AssocMap.
Context {V : Type}.
Implicit Types (m : JsMap (V := V)) (k : string) (v : V).

Lemma get_In k v m : get k m = Some v -> In (k, v) m.
Proof.
  induction m as [| [k' v'] rest IH]; simpl; [discriminate|].
  destruct (String.eqb_spec k k') as [-> | _].
  - intros [= ->]. now left.
  - intros H. right. now apply IH.
Qed.

Lemma get_None_keys k m : get k m = None -> ~ In k (List.map fst m).
Proof.
  induction m as [| [k' v'] rest IH]; simpl; [tauto|].
  destruct (String.eqb_spec k k') as [-> | Hne]; [discriminate|].
  intros H [Heq | Hin]; [congruence | now apply IH].
Qed.

Lemma In_get k v m : List.NoDup (List.map fst m) -> In (k, v) m -> get k m = Some v.
Proof.
  induction m as [| [k' v'] rest IH]; simpl; [tauto|].
  intros Hnd [Heq | Hin].
  - injection Heq as -> ->. now rewrite String.eqb_refl.
  - apply List.NoDup_cons_iff in Hnd as [Hk Hnd].
    destruct (String.eqb_spec k k') as [-> | _].
    + exfalso. apply Hk. change k' with (fst (k', v)). now apply in_map.
    + now apply IH.
Qed.

Lemma keys_set k v m :
  List.map fst (set k v m) =
  match get k m with
  | Some _ => List.map fst m
  | None => List.map fst m ++ [k]
  end.
Proof.
  induction m as [| [k' v'] rest IH]; simpl; [reflexivity|].
  destruct (String.eqb_spec k k') as [-> | _]; simpl; [reflexivity|].
  rewrite IH. now destruct (get k rest).
Qed.

Lemma set_keys_NoDup k v m :
  List.NoDup (List.map fst m) -> List.NoDup (List.map fst (set k v m)).
Proof.
  intros Hnd. rewrite keys_set. destruct (get k m) eqn:Hg; [exact Hnd|].
  apply List.NoDup_app.
  - exact Hnd.
  - apply List.NoDup_cons; [intros [] | apply List.NoDup_nil].
  - intros x Hx [<- | []]. now apply (get_None_keys _ _ Hg).
Qed.

Lemma delete_keys_NoDup k m :
  List.NoDup (List.map fst m) -> List.NoDup (List.map fst (delete k m)).
Proof.
  unfold delete. induction m as [| [k' v'] rest IH]; simpl; [auto|].
  intros Hnd. apply List.NoDup_cons_iff in Hnd as [Hk Hnd].
  destruct (negb (String.eqb k k')); simpl; [|now apply IH].
  apply List.NoDup_cons_iff. split; [|now apply IH].
  intros Hin. apply Hk. apply in_map_iff in Hin as [[k1 v1] [Hfst Hin]].
  apply filter_In in Hin as [Hin _]. simpl in Hfst. subst k1.
  change k' with (fst (k', v1)). now apply in_map.
Qed.

End AssocMap.
End OrderedFacts.

(** ** The client registry and its fan-out *)

Module RoutesFacts.
Import Routes.
Local Open Scope R_scope.

Lemma truthy_num_spec (x : option R) :
  truthy_num x = true <-> exists v, x = Some v /\ v <> 0.
Proof.
  unfold truthy_num. destruct x as [v|].
  - destruct (Req_dec_T v 0) as [-> | Hne]; split.
    + discriminate.
    + intros (w & [= <-] & Hw). now elim Hw.
    + intros _. now exists v.
    + reflexivity.
  - split; [discriminate | intros (v & H & _); discriminate].
Qed.

Lemma truthy_num_zero : truthy_num (Some 0) = false.
Proof. unfold truthy_num. destruct (Req_dec_T 0 0); [reflexivity | congruence]. Qed.

(** Who is in the result of [findClientsWithinRadius], entry by entry. *)
Lemma findClientsWithinRadius_In connectedClients lat0 lng0 radiusKm nc :
  In nc (findClientsWithinRadius connectedClients lat0 lng0 radiusKm) <->
  exists client,
    In (nc_id nc, client) connectedClients /\
    role client = Some "community" /\
    lat client = Some (nc_lat nc) /\ lng client = Some (nc_lng nc) /\
    nc_lat nc <> 0 /\ nc_lng nc <> 0 /\
    Haversine.calculateDistance lat0 lng0 (nc_lat nc) (nc_lng nc) <= radiusKm.
Proof.
  unfold findClientsWithinRadius. rewrite in_flat_map. split.
  - intros ([k client] & Hin & Hnc). simpl in Hnc.
    destruct (truthy_num (lat client)) eqn:Hla; simpl in Hnc; [|contradiction].
    destruct (truthy_num (lng client)) eqn:Hln; simpl in Hnc; [|contradiction].
    destruct (bool_decide (role client = Some "community")) eqn:Hr;
      simpl in Hnc; [|contradiction].
    apply bool_decide_eq_true in Hr.
    apply truthy_num_spec in Hla as (la & Ela & Hla).
    apply truthy_num_spec in Hln as (ln & Eln & Hln).
    rewrite Ela, Eln in Hnc.
    destruct (Rle_dec _ radiusKm) as [Hd|]; [|contradiction].
    destruct Hnc as [<- | []]. simpl. exists client. repeat split; assumption.
  - intros (client & Hin & Hr & Ela & Eln & Hla & Hln & Hd).
    exists (nc_id nc, client). split; [exact Hin|]. simpl.
    assert (Tla : truthy_num (lat client) = true)
      by (apply truthy_num_spec; eauto).
    assert (Tln : truthy_num (lng client) = true)
      by (apply truthy_num_spec; eauto).
    rewrite Tla, Tln, (bool_decide_eq_true_2 _ Hr), Ela, Eln. simpl.
    destruct (Rle_dec _ radiusKm); [|contradiction].
    left. now destruct nc.
Qed.

Lemma sendToClient_entry {Msg} (connectedClients : Registry) k client (m : Msg) :
  keys_unique connectedClients -> In (k, client) connectedClients ->
  sendToClient connectedClients k m =
  if is_open (socket client) then [(k, m)] else [].
Proof.
  intros Hnd Hin. unfold sendToClient.
  now rewrite (OrderedFacts.In_get _ _ _ Hnd Hin).
Qed.



Lemma step_keys_unique connectedClients a :
  keys_unique connectedClients -> keys_unique (fst (step connectedClients a)).
Proof.
  unfold keys_unique. intros Hnd. destruct a as [k | k | k rs | k msg | | |];
    simpl; try exact Hnd.
  - now apply OrderedFacts.set_keys_NoDup.
  - now apply OrderedFacts.delete_keys_NoDup.
  - destruct (Ordered.get k connectedClients); simpl;
      [now apply OrderedFacts.set_keys_NoDup | exact Hnd].
  - unfold handleWebSocketMessage.
    destruct (Ordered.get k connectedClients); simpl; [|exact Hnd].
    destruct msg; simpl; try exact Hnd;
      now apply OrderedFacts.set_keys_NoDup.
Qed.

Lemma run_keys_unique actions : forall connectedClients,
  keys_unique connectedClients -> keys_unique (fst (run connectedClients actions)).
Proof.
  induction actions as [| a rest IH]; intros reg Hnd; simpl; [exact Hnd|].
  pose proof (step_keys_unique reg a Hnd) as H1.
  destruct (step reg a) as [reg1 out1]. simpl in H1.
  specialize (IH reg1 H1). destruct (run reg1 rest) as [reg2 out2].
  exact IH.
Qed.

(** C1. The proximity fan-out should return every registered community
    connection within the radius.  A community client registered on the
    Greenwich meridian (longitude 0) at the very place of the event, at
    distance 0, is left out by [findClientsWithinRadius], while
    [findPointsWithinRadius] keeps the same point. *)
Theorem findClientsWithinRadius_misses_zero_longitude :
  greenwich_registry = [("c1", greenwich)] /\
  Haversine.calculateDistance 51.5 0 51.5 0 <= 0.2 /\
  findClientsWithinRadius greenwich_registry 51.5 0 0.2 = [] /\
  Haversine.findPointsWithinRadius (fun p => p) 51.5 0
    [{| Haversine.lat := 51.5; Haversine.lng := 0 |}] 0.2 =
  [{| Haversine.lat := 51.5; Haversine.lng := 0 |}].
Proof.
  assert (Hd : Haversine.calculateDistance 51.5 0 51.5 0 <= 0.2)
    by (rewrite HaversineFacts.calculateDistance_same; lra).
  repeat split.
  - exact Hd.
  - destruct (findClientsWithinRadius greenwich_registry 51.5 0 0.2)
      as [| nc rest] eqn:Hres; [reflexivity | exfalso].
    assert (Hnc : In nc (findClientsWithinRadius greenwich_registry 51.5 0 0.2))
      by (rewrite Hres; now left).
    apply findClientsWithinRadius_In in Hnc
      as (c & [[= _ <-] | []] & _ & _ & Hln & _ & Hln0 & _).
    simpl in Hln. congruence.
  - unfold Haversine.findPointsWithinRadius. simpl.
    destruct (Rle_dec _ 0.2); [reflexivity | contradiction].
Qed.

Lemma sendToClient_In {Msg} (connectedClients : Registry) k (m : Msg) e :
  In e (sendToClient connectedClients k m) ->
  e = (k, m) /\ exists client, Ordered.get k connectedClients = Some client
                               /\ is_open (socket client) = true.
Proof.
  unfold sendToClient. destruct (Ordered.get k connectedClients) as [client|];
    [|intros []].
  destruct (is_open (socket client)) eqn:Ho; [|intros []].
  intros [<- | []]. eauto.
Qed.

Lemma dispatch_recipient_open connectedClients a k msg :
  is_dispatch a = true -> In (k, msg) (snd (step connectedClients a)) ->
  exists client, Ordered.get k connectedClients = Some client
                 /\ is_open (socket client) = true.
Proof.
  destruct a as [| | | | alertId alat alng | m | m]; try discriminate;
    intros _; cbn [step snd].
  - unfold postAlert. rewrite in_flat_map. intros (nc & _ & Hin).
    apply sendToClient_In in Hin as [[= -> _] H]. exact H.
  - unfold broadcastToAll. rewrite in_flat_map. intros ([k' c'] & _ & Hin).
    apply sendToClient_In in Hin as [[= -> _] H]. exact H.
  - unfold notifyAgents. rewrite in_flat_map. intros ([k' c'] & _ & Hin).
    simpl in Hin. destruct (decide _); [|destruct Hin].
    apply sendToClient_In in Hin as [[= -> _] H]. exact H.
Qed.


Lemma postAlert_reaches_open connectedClients alertId alat alng nc client :
  keys_unique connectedClients ->
  In nc (findClientsWithinRadius connectedClients alat alng 0.2) ->
  In (nc_id nc, client) connectedClients -> is_open (socket client) = true ->
  In (nc_id nc,
      alert_new alertId
        (Haversine.calculateDistance alat alng (nc_lat nc) (nc_lng nc)) true)
     (postAlert connectedClients alertId alat alng).
Proof.
  intros Hnd Hnc Hin Ho. unfold postAlert.
  apply in_flat_map. exists nc. split; [exact Hnc|].
  rewrite (sendToClient_entry _ _ client _ Hnd Hin), Ho. now left.
Qed.


Lemma stale_registry_keys : keys_unique stale_registry.
Proof.
  unfold keys_unique. simpl.
  repeat (apply List.NoDup_cons; [simpl; intuition discriminate|]).
  apply List.NoDup_nil.
Qed.



(** C10. Whatever the event coordinate and the radius, a registered
    connection whose recorded latitude or longitude is exactly 0 is not
    among the clients [findClientsWithinRadius] returns, and a push
    subscription whose latitude or longitude is exactly 0 is not among
    those [getPushSubscriptionsNearLocation] returns: the presence of a
    coordinate is tested by its truthiness. *)
Theorem zero_coordinate_never_selected
    connectedClients pushSubscriptions lat0 lng0 radiusKm k client sub :
  keys_unique connectedClients ->
  In (k, client) connectedClients ->
  lat client = Some 0 \/ lng client = Some 0 ->
  Storage.lat sub = Some 0 \/ Storage.lng sub = Some 0 ->
  (forall nc, In nc (findClientsWithinRadius connectedClients lat0 lng0 radiusKm) ->
     nc_id nc <> k)
  /\ ~ In sub (Storage.getPushSubscriptionsNearLocation pushSubscriptions
                 lat0 lng0 radiusKm).
Proof.
  intros Hnd Hin Hzero Hsub. split.
  - intros nc Hnc Hk.
    apply findClientsWithinRadius_In in Hnc
      as (c & Hc & _ & Hla & Hln & Hla0 & Hln0 & _).
    rewrite Hk in Hc.
    pose proof (OrderedFacts.In_get _ _ _ Hnd Hin) as G1.
    pose proof (OrderedFacts.In_get _ _ _ Hnd Hc) as G2.
    assert (c = client) by congruence. subst c.
    destruct Hzero as [Hz | Hz]; congruence.
  - unfold Storage.getPushSubscriptionsNearLocation. rewrite filter_In.
    intros [_ Hnear]. unfold Storage.near in Hnear.
    destruct Hsub as [Hz | Hz]; rewrite Hz, truthy_num_zero in Hnear;
      simpl in Hnear; try discriminate.
    rewrite orb_true_r in Hnear. discriminate.
Qed.

Lemma greenwich_registry_keys : keys_unique greenwich_registry.
Proof.
  unfold keys_unique. simpl.
  apply List.NoDup_cons; [intros [] | apply List.NoDup_nil].
Qed.

Lemma zero_coordinate_never_selected_witness :
  (forall nc, In nc (findClientsWithinRadius greenwich_registry 51.5 0 0.2) ->
     nc_id nc <> "c1")
  /\ ~ In Storage.null_island_sub
          (Storage.getPushSubscriptionsNearLocation
            [("p1", Storage.null_island_sub)] 51.5 0 0.2).
Proof.
  apply (zero_coordinate_never_selected greenwich_registry
           [("p1", Storage.null_island_sub)] 51.5 0 0.2 "c1" greenwich Storage.null_island_sub).
  - exact greenwich_registry_keys.
  - simpl. now left.
  - now right.
  - now left.
Defined.

End RoutesFacts.

(** ** Insertion-ordered sets *)

Module SetFacts.
Import Ordered.

Lemma flat_map_agree {A B : Type} (f g : A -> list B) (l : list A) :
  (forall x, In x l -> f x = g x) -> List.flat_map f l = List.flat_map g l.
Proof.
  induction l as [| x rest IH]; intros H; simpl; [reflexivity|].
  rewrite (H x (or_introl eq_refl)), IH; [reflexivity|].
  intros y Hy. apply H. now right.
Qed.

Lemma has_In x s : has x s = true <-> In x s.
Proof.
  unfold has. rewrite existsb_exists. split.
  - intros (y & Hin & Heq). apply String.eqb_eq in Heq. now subst.
  - intros Hin. exists x. split; [exact Hin | apply String.eqb_refl].
Qed.

Lemma In_add x y s : In x (add y s) <-> x = y \/ In x s.
Proof.
  unfold add. destruct (has y s) eqn:Hh.
  - apply has_In in Hh. split; [tauto|]. intros [-> | H]; assumption.
  - rewrite in_app_iff. simpl. intuition congruence.
Qed.

Lemma In_remove x y s : In x (remove y s) <-> In x s /\ x <> y.
Proof.
  unfold remove. rewrite filter_In, negb_true_iff.
  destruct (String.eqb_spec y x); intuition congruence.
Qed.

End SetFacts.

(** ** The signaling server *)

Module SignalingFacts.
Import Signaling.

Lemma truthy_str_nonempty (x : string) :
  truthy_str (Some x) = true <-> x <> "".
Proof.
  simpl. rewrite negb_true_iff. destruct (String.eqb_spec x ""); intuition congruence.
Qed.

Lemma in_no_other_room_spec s connectionId r :
  in_no_other_room s connectionId r = true ->
  forall r' room, activeRooms s !! r' = Some room -> In connectionId room -> r' = r.
Proof.
  unfold in_no_other_room. rewrite forallb_forall.
  intros Hall r' room Hlook Hin.
  specialize (Hall (r', room)). simpl in Hall.
  apply orb_true_iff in Hall as [Hno | Heq].
  - apply negb_true_iff in Hno. apply SetFacts.has_In in Hin. congruence.
  - now apply bool_decide_eq_true in Heq.
  - apply list_elem_of_In. now apply elem_of_map_to_list.
Qed.

(** The rooms after a join: room [a] gains the joiner, the others stay. *)
Lemma join_rooms_lookup (rooms : gmap (option string) Ordered.JsSet)
    (a : option string) (connectionId : string) (r : option string) :
  alter (Ordered.add connectionId) a
    (match rooms !! a with
     | None => <[a := []]> rooms
     | Some _ => rooms
     end) !! r =
  if decide (a = r)
  then Some (Ordered.add connectionId (default [] (rooms !! a)))
  else rooms !! r.
Proof.
  destruct (decide (a = r)) as [<- | Hne].
  - rewrite lookup_alter_eq. destruct (rooms !! a) as [room|] eqn:Ha.
    + now rewrite Ha.
    + now rewrite lookup_insert_eq.
  - rewrite lookup_alter_ne by exact Hne.
    destruct (rooms !! a); [reflexivity | now rewrite lookup_insert_ne].
Qed.

(** The rooms after a leave that goes through: room [a] loses the
    leaver and disappears when that empties it. *)
Lemma leave_rooms_lookup (rooms : gmap (option string) Ordered.JsSet)
    (a : option string) (connectionId : string) (r : option string)
    (room' : Ordered.JsSet) :
  match rooms !! a with
  | Some room =>
      match Ordered.remove connectionId room with
      | [] => delete a rooms
      | _ => <[a := Ordered.remove connectionId room]> rooms
      end
  | None => rooms
  end !! r = Some room' ->
  exists room, rooms !! r = Some room /\
    if decide (a = r) then room' = Ordered.remove connectionId room
    else room' = room.
Proof.
  destruct (rooms !! a) as [room|] eqn:Ha.
  - destruct (Ordered.remove connectionId room) as [| x rest] eqn:Hrm.
    + destruct (decide (a = r)) as [<- | Hne].
      * rewrite lookup_delete_eq. discriminate.
      * rewrite lookup_delete_ne by exact Hne. eauto.
    + destruct (decide (a = r)) as [<- | Hne].
      * rewrite lookup_insert_eq. intros [= <-]. eauto.
      * rewrite lookup_insert_ne by exact Hne. eauto.
  - intros Hr. exists room'. split; [exact Hr|].
    destruct (decide (a = r)) as [<- | _]; [congruence | reflexivity].
Qed.

Lemma handleLeaveCall_connections s connectionId :
  connections (fst (handleLeaveCall s connectionId)) = connections s.
Proof.
  unfold handleLeaveCall. destruct (connections s !! connectionId) as [c|];
    [|reflexivity].
  now destruct (negb (truthy_str (alertId c))).
Qed.

(** A leave only shrinks rooms; when it goes through, the leaver is out
    of the room its connection records. *)
Lemma handleLeaveCall_members s connectionId r room' member :
  activeRooms (fst (handleLeaveCall s connectionId)) !! r = Some room' ->
  In member room' ->
  exists room, activeRooms s !! r = Some room /\ In member room /\
    forall c, connections s !! connectionId = Some c ->
      truthy_str (alertId c) = true -> alertId c = r -> member <> connectionId.
Proof.
  unfold handleLeaveCall.
  destruct (connections s !! connectionId) as [c|] eqn:Hc; simpl.
  - destruct (truthy_str (alertId c)) eqn:Ht; simpl.
    + intros Hr Hin. apply leave_rooms_lookup in Hr as (room & Hroom & Hcase).
      exists room. split; [exact Hroom|].
      destruct (decide (alertId c = r)) as [Heq | Hne]; subst room'.
      * apply SetFacts.In_remove in Hin as [Hin Hne]. split; [exact Hin|].
        intros c' [= <-] _ _. exact Hne.
      * split; [exact Hin|]. intros c' [= <-] _ Heq. contradiction.
    + intros Hr Hin. exists room'. repeat split; try assumption.
      intros c' [= <-] Ht'. congruence.
  - intros Hr Hin. exists room'. repeat split; try assumption. discriminate.
Qed.

Lemma step_rooms_recorded s e :
  rooms_recorded s -> admissible s e = true -> rooms_recorded (fst (step s e)).
Proof.
  intros Inv Hadm. destruct e as [cid | fromId m | cid | cid rs]; simpl.
  - (* a connection opens under a fresh identifier *)
    apply bool_decide_eq_true in Hadm.
    intros r room member Hroom Hin. simpl in Hroom |- *.
    destruct (Inv r room member Hroom Hin) as (c & Hc & Hrest).
    exists c. split; [|exact Hrest].
    rewrite lookup_insert_ne; [exact Hc | congruence].
  - (* a frame *)
    unfold handleSignalingMessage.
    destruct (connections s !! fromId) as [sender|] eqn:Hsender; [|exact Inv].
    simpl in Hadm. destruct (type m) eqn:Htype; simpl; try exact Inv.
    + unfold handleOffer, handleRelay. destruct (to m); [|exact Inv].
      now destruct (_ && _).
    + unfold handleAnswer, handleRelay. destruct (to m); [|exact Inv].
      now destruct (_ && _).
    + unfold handleIceCandidate, handleRelay. destruct (to m); [|exact Inv].
      now destruct (_ && _).
    + (* join-call *)
      apply andb_true_iff in Hadm as [Htruthy Hother].
      pose proof (in_no_other_room_spec _ _ _ Hother) as Honly.
      unfold handleJoinCall. rewrite Hsender. simpl.
      intros r room member Hroom Hin. simpl in Hroom |- *.
      rewrite join_rooms_lookup in Hroom.
      destruct (decide (member = fromId)) as [-> | Hne].
      * rewrite lookup_insert_eq. eexists. split; [reflexivity|]. simpl.
        destruct (decide (d_alertId (data m) = r)) as [<- | Hr]; [now split|].
        exfalso. apply Hr. symmetry. exact (Honly r room Hroom Hin).
      * rewrite lookup_insert_ne by congruence.
        destruct (decide (d_alertId (data m) = r)) as [<- | Hr].
        -- injection Hroom as <-. apply SetFacts.In_add in Hin as [? | Hin];
             [contradiction|].
           destruct (activeRooms s !! d_alertId (data m)) as [old|] eqn:Hold;
             simpl in Hin; [|contradiction].
           exact (Inv _ _ _ Hold Hin).
        -- exact (Inv _ _ _ Hroom Hin).
    + (* leave-call *)
      intros r room member Hroom Hin.
      rewrite handleLeaveCall_connections.
      destruct (handleLeaveCall_members _ _ _ _ _ Hroom Hin)
        as (old & Hold & Hin' & _).
      exact (Inv _ _ _ Hold Hin').
  - (* the connection closes *)
    unfold handleConnectionClose.
    destruct (connections s !! cid) as [c|] eqn:Hc; [|exact Inv].
    destruct (truthy_str (alertId c)) eqn:Ht.
    + pose proof (handleLeaveCall_connections s cid) as Hconn.
      pose proof (handleLeaveCall_members s cid) as Hmem.
      destruct (handleLeaveCall s cid) as [s1 out]. simpl in *.
      intros r room member Hroom Hin. simpl in Hroom |- *.
      destruct (Hmem _ _ _ Hroom Hin) as (old & Hold & Hin' & Hout).
      destruct (Inv _ _ _ Hold Hin') as (c' & Hc' & Ha & Hr).
      exists c'. split; [|now split].
      rewrite Hconn. rewrite lookup_delete_ne; [exact Hc'|].
      intros <-. rewrite Hc in Hc'. injection Hc' as <-.
      now apply (Hout c Hc Ht Ha).
    + intros r room member Hroom Hin. simpl in Hroom |- *.
      destruct (Inv _ _ _ Hroom Hin) as (c' & Hc' & Ha & Hr).
      exists c'. split; [|now split].
      rewrite lookup_delete_ne; [exact Hc'|].
      intros <-. rewrite Hc in Hc'. injection Hc' as <-. congruence.
  - (* the transport changes the socket state *)
    intros r room member Hroom Hin. simpl in Hroom |- *.
    destruct (Inv _ _ _ Hroom Hin) as (c & Hc & Hrest).
    destruct (decide (cid = member)) as [-> | Hne].
    + rewrite lookup_alter_eq, Hc. simpl. eexists. split; [reflexivity|].
      exact Hrest.
    + rewrite lookup_alter_ne by exact Hne. eauto.
Qed.

Lemma run_rooms_recorded events : forall s,
  rooms_recorded s -> disciplined s events = true ->
  rooms_recorded (fst (run s events)).
Proof.
  induction events as [| e rest IH]; intros s Inv Hd; simpl; [exact Inv|].
  simpl in Hd. apply andb_true_iff in Hd as [Hadm Hrest].
  pose proof (step_rooms_recorded s e Inv Hadm) as Inv1.
  destruct (step s e) as [s1 out1]. simpl in *.
  specialize (IH s1 Inv1 Hrest). destruct (run s1 rest) as [s2 out2].
  exact IH.
Qed.

Lemma rooms_recorded_initial : rooms_recorded initial.
Proof. intros r room member Hroom. simpl in Hroom. now rewrite lookup_empty in Hroom. Qed.

Lemma rooms_recorded_live s : rooms_recorded s -> rooms_live s.
Proof.
  intros Inv r room member Hroom Hin.
  destruct (Inv r room member Hroom Hin) as (c & Hc & _). now exists c.
Qed.


Lemma handleConnectionClose_unregisters s connectionId :
  connections (fst (handleConnectionClose s connectionId)) !! connectionId = None.
Proof.
  unfold handleConnectionClose.
  destruct (connections s !! connectionId) as [c|] eqn:Hc; [|exact Hc].
  destruct (truthy_str (alertId c)).
  - destruct (handleLeaveCall s connectionId) as [s1 out]. simpl.
    apply lookup_delete_eq.
  - simpl. apply lookup_delete_eq.
Qed.

Lemma handleConnectionClose_again s connectionId :
  let closed := fst (handleConnectionClose s connectionId) in
  handleConnectionClose closed connectionId = (closed, []).
Proof.
  intros closed. unfold handleConnectionClose at 1.
  unfold closed. now rewrite handleConnectionClose_unregisters.
Qed.

(** C3, as the code has it.  After every run of the server from its
    initial state in which connection identifiers are fresh when a
    connection opens and every join-call names a truthy room and comes
    from a connection that is a member of no other room at that moment,
    every identifier in every room's member set is a registered
    connection; this still holds after any connection closes, and closing
    the same connection a second time changes nothing and writes
    nothing. *)
Theorem rooms_live_disciplined events connectionId :
  disciplined initial events = true ->
  let s := fst (run initial events) in
  let closed := fst (step s (Closed connectionId)) in
  rooms_live s /\ rooms_live closed /\
  step closed (Closed connectionId) = (closed, []).
Proof.
  intros Hd s closed.
  assert (Inv : rooms_recorded s)
    by (apply run_rooms_recorded; [apply rooms_recorded_initial | exact Hd]).
  repeat split.
  - now apply rooms_recorded_live.
  - apply rooms_recorded_live. now apply (step_rooms_recorded s (Closed connectionId)).
  - apply handleConnectionClose_again.
Qed.

Lemma rooms_live_disciplined_witness :
  disciplined initial trace_ok = true /\
  (let s := fst (run initial trace_ok) in
   let closed := fst (step s (Closed "a")) in
   rooms_live s /\ rooms_live closed /\ step closed (Closed "a") = (closed, [])).
Proof.
  split; [vm_compute; reflexivity|].
  apply (rooms_live_disciplined trace_ok "a"). vm_compute; reflexivity.
Defined.

(** C3 as stated fails: a connection joins room A, then room B, then
    closes; room A keeps its identifier although the connection is no
    longer registered. *)
Lemma stale_member_after_two_joins :
  let s := fst (run initial trace_two_rooms) in
  activeRooms s !! Some "A" = Some ["x"] /\ connections s !! "x" = None /\
  ~ rooms_live s.
Proof.
  assert (Hroom : activeRooms (fst (run initial trace_two_rooms)) !! Some "A" = Some ["x"])
    by (vm_compute; reflexivity).
  assert (Hconn : connections (fst (run initial trace_two_rooms)) !! "x" = None)
    by (vm_compute; reflexivity).
  intros s. split; [exact Hroom | split; [exact Hconn |]].
  intros Hlive. specialize (Hlive (Some "A") ["x"] "x" Hroom (or_introl eq_refl)).
  destruct Hlive as [c Hc]. unfold s in Hc. congruence.
Qed.

(** What a leave does when it is as the specification has it: a
    connection that never joined is left alone; a member is taken out of
    the room it records, the room goes when it empties, and the members
    that remain are told. *)
Lemma handleLeaveCall_idle s connectionId c :
  connections s !! connectionId = Some c -> truthy_str (alertId c) = false ->
  handleLeaveCall s connectionId = (s, []).
Proof. intros Hc Ht. unfold handleLeaveCall. now rewrite Hc, Ht. Qed.

Lemma handleLeaveCall_member s connectionId c room :
  connections s !! connectionId = Some c -> truthy_str (alertId c) = true ->
  activeRooms s !! alertId c = Some room ->
  let s' := fst (handleLeaveCall s connectionId) in
  let remaining := Ordered.remove connectionId room in
  activeRooms s' !! alertId c =
    match remaining with [] => None | _ => Some remaining end
  /\ (forall r, r <> alertId c -> activeRooms s' !! r = activeRooms s !! r)
  /\ snd (handleLeaveCall s connectionId) =
     List.flat_map (fun member =>
         sendMessage s member (user_left connectionId (role c)))
       remaining.
Proof.
  intros Hc Ht Hroom s' remaining. subst s'.
  unfold handleLeaveCall. rewrite Hc, Ht, Hroom. cbn [negb fst snd].
  fold remaining.
  assert (Hex : forall member, In member remaining ->
            Some member <> Some connectionId).
  { intros member Hin [= ->]. now apply SetFacts.In_remove in Hin as [_ []]. }
  destruct remaining as [| m rest] eqn:Hrem.
  - cbn [activeRooms]. rewrite lookup_delete_eq. split; [reflexivity|].
    split; [intros r Hr; now rewrite lookup_delete_ne by congruence|].
    unfold broadcastToRoom. cbn [activeRooms]. now rewrite lookup_delete_eq.
  - cbn [activeRooms]. rewrite lookup_insert_eq. split; [reflexivity|].
    split; [intros r Hr; now rewrite lookup_insert_ne by congruence|].
    unfold broadcastToRoom. cbn [activeRooms]. rewrite lookup_insert_eq.
    apply SetFacts.flat_map_agree. intros member Hin.
    now rewrite decide_False by (apply Hex; exact Hin).
Qed.

(** C4. A leave-call from a connection that is in no room should change
    nothing and send nothing.  After "u" and "a" joined room A and "a"
    left, "a" is in no room; a second leave-call from "a" leaves the state
    as it is but tells "u" once more that "a" left, and so does the
    closing of "a". *)
Theorem second_leave_notifies_again :
  let s := fst (run initial trace_left) in
  map_to_list (activeRooms s) = [(Some "A", ["u"])] /\
  step s (Frame "a" leave) = (s, [("u", user_left "a" (Some "agent"))]) /\
  snd (step s (Closed "a")) = [("u", user_left "a" (Some "agent"))].
Proof. vm_compute. repeat split; reflexivity. Qed.

(** C7. For every offer, answer or ice-candidate frame from a registered
    sender: when the target is a live connection (registered, socket
    open) the frame is delivered to it with the same type and the same
    data, the sender's identifier added as [from], and nothing else is
    written; when the target is not live (absent, unregistered, or its
    socket not open) nothing is written at all; in both cases the state
    is unchanged and no error is raised. *)
Theorem relay_delivery s fromId m sender :
  is_relay (type m) = true ->
  connections s !! fromId = Some sender ->
  (forall target, to m = Some target -> target <> "" -> live s target ->
     step s (Frame fromId m) =
     (s, [(target, forwarded (type m) (data m) fromId)]))
  /\ ((forall target, to m = Some target -> ~ live s target) ->
      step s (Frame fromId m) = (s, [])).
Proof.
  intros Hkind Hsender.
  assert (Hstep : step s (Frame fromId m) = handleRelay (type m) s fromId m).
  { simpl. unfold handleSignalingMessage. rewrite Hsender.
    destruct (type m); try discriminate; reflexivity. }
  rewrite Hstep. unfold handleRelay. split.
  - intros target Hto Hne (c & Hc & Hopen). rewrite Hto.
    apply truthy_str_nonempty in Hne. rewrite Hne.
    rewrite bool_decide_eq_true_2 by (rewrite Hc; eauto). simpl.
    unfold sendMessage. now rewrite Hc, Hopen.
  - intros Hdead. destruct (to m) as [target|] eqn:Hto; [|reflexivity].
    destruct (_ && _) eqn:Hguard; [|reflexivity].
    unfold sendMessage.
    destruct (connections s !! target) as [c|] eqn:Hc; [|reflexivity].
    destruct (socket c) eqn:Hsock; try reflexivity.
    exfalso. apply (Hdead target eq_refl). now exists c.
Qed.

Section Join.
Variables (s : Server) (connectionId : string) (message : SignalingMessage)
          (connection : WebRTCConnection).
Hypothesis registered : connections s !! connectionId = Some connection.

Lemma handleJoinCall_connections :
  connections (fst (handleJoinCall s connectionId message)) =
  <[connectionId :=
      {| id := id connection; socket := socket connection;
         role := d_role (data message); alertId := d_alertId (data message);
         userId := d_userId (data message);
         isConnected := isConnected connection |}]> (connections s).
Proof. unfold handleJoinCall. now rewrite registered. Qed.

Lemma handleJoinCall_rooms r :
  activeRooms (fst (handleJoinCall s connectionId message)) !! r =
  if decide (d_alertId (data message) = r)
  then Some (Ordered.add connectionId
               (default [] (activeRooms s !! d_alertId (data message))))
  else activeRooms s !! r.
Proof.
  unfold handleJoinCall. rewrite registered. simpl.
  apply join_rooms_lookup.
Qed.

Lemma handleJoinCall_outbox :
  snd (handleJoinCall s connectionId message) =
  broadcastToRoom (fst (handleJoinCall s connectionId message))
    (d_alertId (data message))
    (user_joined connectionId (d_role (data message))
       (d_userId (data message)))
    (Some connectionId)
  ++ (if decide (d_role (data message) = Some "agent") then
        match activeRooms (fst (handleJoinCall s connectionId message))
                !! d_alertId (data message) with
        | Some room =>
            match List.find
                    (is_user (fst (handleJoinCall s connectionId message)))
                    room with
            | Some userConnection =>
                if truthy_str (Some userConnection)
                then sendMessage (fst (handleJoinCall s connectionId message))
                       userConnection (agent_available connectionId)
                else []
            | None => []
            end
        | None => []
        end
      else []).
Proof. unfold handleJoinCall. now rewrite registered. Qed.

End Join.

Lemma sendMessage_open s connectionId c message :
  connections s !! connectionId = Some c -> socket c = OPEN ->
  sendMessage s connectionId message = [(connectionId, message)].
Proof. intros Hc Ho. unfold sendMessage. now rewrite Hc, Ho. Qed.

Lemma broadcastToRoom_room s r room message excludeId :
  activeRooms s !! r = Some room ->
  broadcastToRoom s r message excludeId =
  List.flat_map (fun connectionId =>
      if decide (Some connectionId = excludeId) then []
      else sendMessage s connectionId message) room.
Proof. intros Hr. unfold broadcastToRoom. now rewrite Hr. Qed.

Lemma broadcastToRoom_msgs s r message excludeId e :
  In e (broadcastToRoom s r message excludeId) -> snd e = message.
Proof.
  unfold broadcastToRoom. destruct (activeRooms s !! r) as [room|]; [|intros []].
  rewrite in_flat_map. intros (x & _ & Hin).
  destruct (decide (Some x = excludeId)); [destruct Hin|].
  unfold sendMessage in Hin. destruct (connections s !! x) as [c|]; [|destruct Hin].
  destruct (is_open (socket c)); [|destruct Hin].
  destruct Hin as [<- | []]. reflexivity.
Qed.

Lemma invites_none (out : Outbox) :
  (forall e, In e out -> is_invite (snd e) = false) -> invites out = [].
Proof.
  unfold invites. induction out as [| e rest IH]; intros H; simpl; [reflexivity|].
  rewrite (H e (or_introl eq_refl)). apply IH. intros e' He'. apply H. now right.
Qed.

Lemma is_user_spec s x :
  is_user s x = true <-> exists c, connections s !! x = Some c /\ role c = Some "user".
Proof.
  unfold is_user. destruct (connections s !! x) as [c|].
  - rewrite bool_decide_eq_true. split; [eauto | now intros (c' & [= <-] & H)].
  - split; [discriminate | now intros (c' & H & _)].
Qed.

(** C6, as the code has it.  When an agent joins a room that already
    holds a user whose socket is open, the broker writes exactly one
    agent-available frame: it goes to a user already in the room, not to
    the joining agent, and its agentId field is the joining agent. *)
Theorem agent_join_invites_user s connectionId message connection room user0 :
  connections s !! connectionId = Some connection ->
  d_role (data message) = Some "agent" ->
  activeRooms s !! d_alertId (data message) = Some room ->
  In user0 room -> user0 <> connectionId -> is_user s user0 = true ->
  (forall x cx, In x room -> connections s !! x = Some cx ->
     role cx = Some "user" -> socket cx = OPEN /\ x <> "") ->
  exists u, In u room /\ u <> connectionId /\ is_user s u = true /\
    invites (snd (handleJoinCall s connectionId message)) =
    [(u, agent_available connectionId)].
Proof.
  intros Hreg Hrole Hroom Hin0 Hne0 Huser0 Hreach.
  pose proof (handleJoinCall_connections s connectionId message connection Hreg) as Hconns.
  pose proof (handleJoinCall_rooms s connectionId message connection Hreg
                (d_alertId (data message))) as Hrooms.
  rewrite decide_True in Hrooms by reflexivity. rewrite Hroom in Hrooms. simpl in Hrooms.
  rewrite (handleJoinCall_outbox s connectionId message connection Hreg).
  set (s' := fst (handleJoinCall s connectionId message)) in *.
  assert (Hother : forall x, x <> connectionId -> is_user s' x = is_user s x).
  { intros x Hx. unfold is_user. rewrite Hconns, lookup_insert_ne by congruence.
    reflexivity. }
  assert (Hself : is_user s' connectionId = false).
  { unfold is_user. rewrite Hconns, lookup_insert_eq. simpl. rewrite Hrole.
    now apply bool_decide_eq_false. }
  destruct (List.find (is_user s') (Ordered.add connectionId room)) as [u|] eqn:Hfind.
  - pose proof Hfind as Hfound. apply find_some in Hfind as [Hin Hu].
    assert (Hneu : u <> connectionId) by (intros ->; congruence).
    apply SetFacts.In_add in Hin as [? | Hin]; [contradiction|].
    rewrite Hother in Hu by exact Hneu.
    destruct (proj1 (is_user_spec s u) Hu) as (cu & Hcu & Hru).
    destruct (Hreach u cu Hin Hcu Hru) as [Hopen Hnonempty].
    exists u. repeat split; try assumption.
    rewrite Hrooms, decide_True, Hfound by exact Hrole.
    rewrite (proj2 (truthy_str_nonempty u) Hnonempty).
    rewrite (sendMessage_open s' u cu)
      by (rewrite ?Hconns, ?lookup_insert_ne; congruence).
    unfold invites. rewrite List.filter_app.
    fold (invites (broadcastToRoom s' (d_alertId (data message))
            (user_joined connectionId (d_role (data message))
               (d_userId (data message))) (Some connectionId))).
    rewrite invites_none; [reflexivity|].
    intros e He. now rewrite (broadcastToRoom_msgs _ _ _ _ _ He).
  - exfalso.
    assert (Hno : is_user s' user0 = false)
      by (apply (find_none _ _ Hfind); apply SetFacts.In_add; now right).
    rewrite Hother in Hno by exact Hne0. congruence.
Qed.

Lemma step_join s connectionId message connection :
  connections s !! connectionId = Some connection ->
  type message = join_call ->
  step s (Frame connectionId message) = handleJoinCall s connectionId message.
Proof. intros Hc Ht. simpl. unfold handleSignalingMessage. now rewrite Hc, Ht. Qed.

Lemma step_leave s connectionId message connection :
  connections s !! connectionId = Some connection ->
  type message = leave_call ->
  step s (Frame connectionId message) = handleLeaveCall s connectionId.
Proof. intros Hc Ht. simpl. unfold handleSignalingMessage. now rewrite Hc, Ht. Qed.

(** A member of a two-party room leaves: the other one is told, once. *)
Lemma handleLeaveCall_pair s leaver other a cl co :
  leaver <> other ->
  connections s !! leaver = Some cl -> alertId cl = a -> truthy_str a = true ->
  connections s !! other = Some co -> socket co = OPEN ->
  (activeRooms s !! a = Some [leaver; other] \/
   activeRooms s !! a = Some [other; leaver]) ->
  snd (handleLeaveCall s leaver) = [(other, user_left leaver (role cl))].
Proof.
  intros Hne Hcl Ha Ht Hco Hopen Hroom.
  assert (Hrm : exists room, activeRooms s !! a = Some room /\
                  Ordered.remove leaver room = [other]).
  { destruct Hroom as [Hr | Hr]; eexists; (split; [exact Hr|]);
      unfold Ordered.remove; simpl; rewrite String.eqb_refl;
      rewrite (proj2 (String.eqb_neq leaver other) Hne); reflexivity. }
  destruct Hrm as (room & Hr & Hrm).
  unfold handleLeaveCall. rewrite Hcl, Ha, Ht, Hr, Hrm. simpl.
  unfold broadcastToRoom. simpl. rewrite lookup_insert_eq. simpl.
  rewrite decide_False by congruence.
  unfold sendMessage. simpl. now rewrite Hco, Hopen.
Qed.

Lemma received_cons recipient p e (out : Outbox) :
  received recipient p (e :: out) =
  (if String.eqb (fst e) recipient && p (snd e) then 1 else 0)
  + received recipient p out.
Proof. unfold received. simpl. now destruct (_ && _). Qed.

(** C5, as the code has it.  Two open connections join a room that did
    not exist: the first joiner gets exactly one user-joined frame about
    the second, the second gets none about the first, and neither gets
    one about itself; whichever of the two then leaves, the other gets
    exactly one user-left frame about it. *)
Theorem two_party_notifications s x y cx cy mx my a :
  x <> y ->
  connections s !! x = Some cx -> socket cx = OPEN ->
  connections s !! y = Some cy -> socket cy = OPEN ->
  activeRooms s !! a = None -> truthy_str a = true ->
  type mx = join_call -> d_alertId (data mx) = a ->
  type my = join_call -> d_alertId (data my) = a ->
  let after_x := step s (Frame x mx) in
  let after_y := step (fst after_x) (Frame y my) in
  let joins := snd after_x ++ snd after_y in
  received x (is_joined_about y) joins = 1 /\
  received y (is_joined_about x) joins = 0 /\
  received x (is_joined_about x) joins = 0 /\
  received y (is_joined_about y) joins = 0 /\
  (forall ml, type ml = leave_call ->
     snd (step (fst after_y) (Frame y ml)) =
     [(x, user_left y (d_role (data my)))]) /\
  (forall ml, type ml = leave_call ->
     snd (step (fst after_y) (Frame x ml)) =
     [(y, user_left x (d_role (data mx)))]).
Proof.
  intros Hne Hcx Hox Hcy Hoy Hnoroom Htruthy Htx Hax Hty Hay after_x after_y joins.
  assert (Hyx : String.eqb y x = false) by (apply String.eqb_neq; congruence).
  assert (Hxy : String.eqb x y = false) by (apply String.eqb_neq; congruence).
  (* the first join *)
  subst joins after_y after_x. rewrite (step_join s x mx cx Hcx Htx).
  pose proof (handleJoinCall_connections s x mx cx Hcx) as Hconn1.
  pose proof (handleJoinCall_rooms s x mx cx Hcx a) as Hroom1.
  rewrite Hax, decide_True, Hnoroom in Hroom1 by reflexivity.
  change (Ordered.add x (default [] None)) with [x] in Hroom1.
  pose proof (handleJoinCall_outbox s x mx cx Hcx) as Hout1.
  set (s1 := fst (handleJoinCall s x mx)) in *.
  assert (Hcx1 : exists cx1, connections s1 !! x = Some cx1 /\ socket cx1 = OPEN
                   /\ role cx1 = d_role (data mx) /\ alertId cx1 = a).
  { rewrite Hconn1, lookup_insert_eq. eexists. split; [reflexivity|].
    simpl. auto. }
  destruct Hcx1 as (cx1 & Hcx1 & Hox1 & Hrx1 & Halx1).
  assert (Hcy1 : connections s1 !! y = Some cy)
    by (rewrite Hconn1, lookup_insert_ne; congruence).
  assert (Eout1 : snd (handleJoinCall s x mx) = []).
  { rewrite Hout1, Hax. rewrite (broadcastToRoom_room s1 a [x]) by exact Hroom1.
    simpl. rewrite decide_True by reflexivity. simpl.
    destruct (decide (d_role (data mx) = Some "agent")) as [Hagent|]; [|reflexivity].
    rewrite Hroom1. simpl. unfold is_user. rewrite Hcx1, Hrx1, Hagent.
    rewrite bool_decide_eq_false_2 by discriminate. reflexivity. }
  (* the second join *)
  rewrite (step_join s1 y my cy Hcy1 Hty).
  pose proof (handleJoinCall_connections s1 y my cy Hcy1) as Hconn2.
  pose proof (handleJoinCall_rooms s1 y my cy Hcy1 a) as Hroom2.
  rewrite Hay, decide_True, Hroom1 in Hroom2 by reflexivity.
  change (Ordered.add y (default [] (Some [x]))) with (Ordered.add y [x]) in Hroom2.
  assert (Hadd : Ordered.add y [x] = [x; y])
    by (unfold Ordered.add, Ordered.has; simpl; now rewrite Hyx).
  rewrite Hadd in Hroom2.
  pose proof (handleJoinCall_outbox s1 y my cy Hcy1) as Hout2.
  set (s2 := fst (handleJoinCall s1 y my)) in *.
  assert (Hcx2 : connections s2 !! x = Some cx1)
    by (rewrite Hconn2, lookup_insert_ne; congruence).
  assert (Hcy2 : exists cy2, connections s2 !! y = Some cy2 /\ socket cy2 = OPEN
                   /\ role cy2 = d_role (data my) /\ alertId cy2 = a).
  { rewrite Hconn2, lookup_insert_eq. eexists. split; [reflexivity|].
    simpl. auto. }
  destruct Hcy2 as (cy2 & Hcy2 & Hoy2 & Hry2 & Haly2).
  assert (Eout2 : exists rest,
            snd (handleJoinCall s1 y my) =
            (x, user_joined y (d_role (data my)) (d_userId (data my))) :: rest
            /\ (rest = [] \/ rest = [(x, agent_available y)])).
  { rewrite Hout2, Hay. rewrite (broadcastToRoom_room s2 a [x; y]) by exact Hroom2.
    simpl. rewrite decide_False by congruence. rewrite decide_True by reflexivity.
    rewrite (sendMessage_open s2 x cx1) by assumption. simpl.
    eexists. split; [reflexivity|].
    destruct (decide (d_role (data my) = Some "agent")) as [Hagent|]; [|now left].
    rewrite Hroom2. simpl.
    assert (Hnoty : is_user s2 y = false).
    { unfold is_user. rewrite Hcy2, Hry2, Hagent.
      now rewrite bool_decide_eq_false_2 by discriminate. }
    rewrite Hnoty. destruct (is_user s2 x); [|now left].
    destruct (negb (String.eqb x "")); [|now left].
    rewrite (sendMessage_open s2 x cx1) by assumption. now right. }
  destruct Eout2 as (rest & Eout2 & Hrest).
  rewrite Eout1, Eout2, app_nil_l.
  repeat split.
  - rewrite received_cons. simpl. rewrite !String.eqb_refl. simpl.
    destruct Hrest as [-> | ->]; [reflexivity|].
    rewrite received_cons. simpl. now rewrite andb_false_r.
  - rewrite received_cons. simpl. rewrite Hxy. simpl.
    destruct Hrest as [-> | ->]; [reflexivity|].
    rewrite received_cons. simpl. now rewrite Hxy.
  - rewrite received_cons. simpl. rewrite Hyx, andb_false_r. simpl.
    destruct Hrest as [-> | ->]; [reflexivity|].
    rewrite received_cons. simpl. now rewrite andb_false_r.
  - rewrite received_cons. simpl. rewrite Hxy. simpl.
    destruct Hrest as [-> | ->]; [reflexivity|].
    rewrite received_cons. simpl. now rewrite Hxy.
  - intros ml Hml. rewrite (step_leave s2 y ml cy2 Hcy2 Hml).
    rewrite (handleLeaveCall_pair s2 y x a cy2 cx1); auto. now rewrite Hry2.
  - intros ml Hml. rewrite (step_leave s2 x ml cx1 Hcx2 Hml).
    rewrite (handleLeaveCall_pair s2 x y a cx1 cy2); auto. now rewrite Hrx1.
Qed.

Lemma two_party_notifications_witness :
  let after_x := step two_connected (Frame "x" (join "A" "user")) in
  let after_y := step (fst after_x) (Frame "y" (join "A" "agent")) in
  let joins := snd after_x ++ snd after_y in
  received "x" (is_joined_about "y") joins = 1 /\
  received "y" (is_joined_about "x") joins = 0 /\
  received "x" (is_joined_about "x") joins = 0 /\
  received "y" (is_joined_about "y") joins = 0 /\
  (forall ml, type ml = leave_call ->
     snd (step (fst after_y) (Frame "y" ml)) =
     [("x", user_left "y" (Some "agent"))]) /\
  (forall ml, type ml = leave_call ->
     snd (step (fst after_y) (Frame "x" ml)) =
     [("y", user_left "x" (Some "user"))]).
Proof.
  apply (two_party_notifications two_connected "x" "y"
           (fresh_connection "x") (fresh_connection "y")
           (join "A" "user") (join "A" "agent") (Some "A"));
    try (vm_compute; reflexivity).
  discriminate.
Defined.

(** C5 as stated fails: of two connections joining room A, the second
    one is never told about the first. *)
Lemma second_joiner_not_notified :
  let out :=
    snd (run initial [Connection "x"; Connection "y";
                      Frame "x" (join "A" "user"); Frame "y" (join "A" "user")]) in
  out = [("x", connection_established "x"); ("y", connection_established "y");
         ("x", user_joined "y" (Some "user") None)] /\
  received "y" (is_joined_about "x") out <> 1.
Proof. vm_compute. split; [reflexivity | discriminate]. Qed.

(** C6 as stated fails: when agent "a" joins the room where user "u"
    waits, everything written goes to "u"; the joining agent gets no
    invite. *)
Lemma invite_goes_to_the_user :
  let out := snd (step user_waiting (Frame "a" (join "A" "agent"))) in
  out = [("u", user_joined "a" (Some "agent") None); ("u", agent_available "a")]
  /\ received "a" is_invite out = 0
  /\ forall peer, ~ In ("a", agent_available peer) out.
Proof.
  vm_compute. repeat split.
  intros peer [H | [H | []]]; discriminate.
Qed.

Lemma agent_join_invites_user_witness :
  exists u, In u ["u"] /\ u <> "a" /\ is_user user_waiting u = true /\
    invites (snd (handleJoinCall user_waiting "a" (join "A" "agent"))) =
    [(u, agent_available "a")].
Proof.
  apply (agent_join_invites_user user_waiting "a" (join "A" "agent")
           (fresh_connection "a") ["u"] "u");
    try (vm_compute; reflexivity).
  - now left.
  - discriminate.
  - intros x cx [<- | []] Hcx _.
    assert (Hu : connections user_waiting !! "u" =
                 Some {| id := "u"; socket := OPEN; role := Some "user";
                         alertId := Some "A"; userId := None;
                         isConnected := true |})
      by (vm_compute; reflexivity).
    rewrite Hu in Hcx. injection Hcx as <-. split; [reflexivity | discriminate].
Defined.

Lemma relay_delivery_witness :
  step two_connected (Frame "x" (sdp offer "y" "v=0")) =
  (two_connected,
   [("y", forwarded offer
            {| d_alertId := None; d_role := None; d_userId := None;
               d_body := "v=0" |} "x")])
  /\ step two_connected (Frame "x" (sdp ice_candidate "gone" "candidate:0")) =
     (two_connected, []).
Proof.
  split.
  - apply (proj1 (relay_delivery two_connected "x" (sdp offer "y" "v=0")
                    (fresh_connection "x") eq_refl
                    ltac:(vm_compute; reflexivity)) "y" eq_refl).
    + discriminate.
    + exists (fresh_connection "y"). split; [vm_compute; reflexivity | reflexivity].
  - apply (proj2 (relay_delivery two_connected "x"
                    (sdp ice_candidate "gone" "candidate:0")
                    (fresh_connection "x") eq_refl
                    ltac:(vm_compute; reflexivity))).
    intros target [= <-] (c & Hc & _).
    assert (Hgone : connections two_connected !! "gone" = None)
      by (vm_compute; reflexivity).
    congruence.
Defined.

End SignalingFacts.

(** * Further properties *)

(** ** Lists *)

Module ListMore.

Lemma filter_none {A} (p : A -> bool) (l : list A) :
  (forall x, In x l -> p x = false) -> List.filter p l = [].
Proof.
  induction l as [| x rest IH]; intros H; simpl; [reflexivity|].
  rewrite (H x (or_introl eq_refl)). apply IH. intros y Hy. apply H. now right.
Qed.

Lemma filter_all {A} (p : A -> bool) (l : list A) :
  (forall x, In x l -> p x = true) -> List.filter p l = l.
Proof.
  induction l as [| x rest IH]; intros H; simpl; [reflexivity|].
  rewrite (H x (or_introl eq_refl)). f_equal. apply IH.
  intros y Hy. apply H. now right.
Qed.

Lemma flat_map_snoc_skip {A B} (f : A -> list B) (l : list A) (x : A) :
  f x = [] -> List.flat_map f (l ++ [x]) = List.flat_map f l.
Proof.
  intros Hx. rewrite flat_map_app. simpl. now rewrite Hx, !app_nil_r.
Qed.

End ListMore.

(** ** Distances and boxes *)

Module HaversineMore.
Import Haversine HaversineFacts.
Local Open Scope R_scope.

Lemma PI_upper : PI <= 3.1421.
Proof.
  pose proof (PI_2_3_7_ineq 1) as [_ H].
  unfold sum_f_R0, tg_alt, PI_2_3_7_tg, Ratan_seq in H. simpl in H.
  lra.
Qed.

Lemma PI_lower : 3.1415 <= PI.
Proof.
  pose proof (PI_2_3_7_ineq 1) as [H _].
  unfold sum_f_R0, tg_alt, PI_2_3_7_tg, Ratan_seq in H. simpl in H.
  lra.
Qed.

Lemma atan2_sin_cos h : 0 <= h <= PI / 2 -> atan2 (sin h) (cos h) = h.
Proof.
  intros [H0 [Hlt | ->]].
  - assert (Hcos : 0 < cos h) by (apply cos_gt_0; lra).
    unfold atan2. destruct (Rlt_dec 0 (cos h)) as [_ | Hn]; [|contradiction].
    change (sin h / cos h) with (tan h). apply atan_tan. lra.
  - rewrite sin_PI2, cos_PI2. unfold atan2.
    destruct (Rlt_dec 0 0) as [Hn | _]; [lra|].
    destruct (Rlt_dec 0 1) as [_ | Hn]; [reflexivity | lra].
Qed.

(** The central angle recovered from the haversine term of a half-angle. *)
Lemma central_angle h :
  0 <= h <= PI / 2 ->
  2 * atan2 (sqrt (sin h * sin h)) (sqrt (1 - sin h * sin h)) = 2 * h.
Proof.
  intros Hh. pose proof PI_RGT_0.
  assert (Hs : 0 <= sin h) by (apply sin_ge_0; lra).
  assert (Hc : 0 <= cos h) by (apply cos_ge_0; lra).
  replace (1 - sin h * sin h) with (cos h * cos h)
    by (pose proof (sin2_cos2 h) as E; unfold Rsqr in E; lra).
  rewrite !sqrt_square by assumption.
  now rewrite atan2_sin_cos.
Qed.

Lemma hav_meridian lat1 lat2 lng0 :
  hav lat1 lng0 lat2 lng0 =
  sin (toRadians (lat2 - lat1) / 2) * sin (toRadians (lat2 - lat1) / 2).
Proof.
  unfold hav.
  replace (toRadians (lng0 - lng0) / 2) with 0 by (unfold toRadians; field).
  rewrite sin_0. ring.
Qed.

Lemma meridian_northward lat1 lat2 lng0 :
  0 <= lat2 - lat1 <= 180 ->
  calculateDistance lat1 lng0 lat2 lng0 = 6371 * (PI / 180) * (lat2 - lat1).
Proof.
  intros Hd. pose proof PI_RGT_0.
  rewrite calculateDistance_unfold, hav_meridian.
  rewrite central_angle.
  - unfold toRadians. field.
  - unfold toRadians. split.
    + apply Rmult_le_pos; [|lra]. apply Rmult_le_pos; [lra|].
      apply Rmult_le_pos; lra.
    + assert ((lat2 - lat1) * (PI / 180) <= 180 * (PI / 180))
        by (apply Rmult_le_compat_r; lra).
      lra.
Qed.

(** X1. Two points on the same meridian no more than 180 degrees of
    latitude apart are [6371 * PI / 180] km per degree of latitude apart. *)
Theorem meridian_distance lat1 lat2 lng0 :
  Rabs (lat2 - lat1) <= 180 ->
  calculateDistance lat1 lng0 lat2 lng0 =
  6371 * (PI / 180) * Rabs (lat2 - lat1).
Proof.
  intros Hd. destruct (Rle_dec lat1 lat2) as [Hle | Hgt].
  - rewrite Rabs_pos_eq in * by lra. apply meridian_northward. lra.
  - rewrite Rabs_left in * by lra. rewrite calculateDistance_sym.
    rewrite meridian_northward by lra. ring.
Qed.

Lemma meridian_distance_witness :
  calculateDistance 10 20 11 20 = 6371 * (PI / 180) * Rabs (11 - 10).
Proof.
  apply (meridian_distance 10 11 20).
  rewrite Rabs_pos_eq; lra.
Defined.

(** X2. The distance does not change when a longitude is shifted by a
    full turn of 360 degrees: nothing special happens at the antimeridian. *)
Theorem longitude_periodic lat1 lng1 lat2 lng2 :
  calculateDistance lat1 lng1 lat2 (lng2 + 360) =
  calculateDistance lat1 lng1 lat2 lng2.
Proof.
  rewrite !calculateDistance_unfold.
  assert (Hh : hav lat1 lng1 lat2 (lng2 + 360) = hav lat1 lng1 lat2 lng2).
  { unfold hav.
    replace (toRadians (lng2 + 360 - lng1) / 2)
      with (toRadians (lng2 - lng1) / 2 + PI) by (unfold toRadians; field).
    rewrite neg_sin. ring. }
  now rewrite Hh.
Qed.

(** X4. [findPointsWithinRadius] keeps exactly the points at distance at
    most the radius; a larger radius keeps every point a smaller one
    keeps; a point at the centre is kept for every radius from 0 on. *)
Theorem findPointsWithinRadius_grows {T : Type} (coords : T -> Point)
    (centerLat centerLng : R) (points : list T) (r1 r2 : R) (p : T) :
  r1 <= r2 ->
  (In p (findPointsWithinRadius coords centerLat centerLng points r1) <->
   In p points /\
   calculateDistance centerLat centerLng (lat (coords p)) (lng (coords p)) <= r1)
  /\ (In p (findPointsWithinRadius coords centerLat centerLng points r1) ->
      In p (findPointsWithinRadius coords centerLat centerLng points r2))
  /\ (0 <= r1 -> In p points ->
      lat (coords p) = centerLat -> lng (coords p) = centerLng ->
      In p (findPointsWithinRadius coords centerLat centerLng points r1)).
Proof.
  intros Hr.
  assert (Hmem : forall r,
            In p (findPointsWithinRadius coords centerLat centerLng points r) <->
            In p points /\
            calculateDistance centerLat centerLng
              (lat (coords p)) (lng (coords p)) <= r).
  { intros r. unfold findPointsWithinRadius. rewrite filter_In.
    destruct (Rle_dec _ r); intuition discriminate. }
  split; [apply Hmem|]. split.
  - rewrite !Hmem. intros [Hin Hd]. split; [exact Hin | lra].
  - intros H0 Hin Hla Hln. apply Hmem. split; [exact Hin|].
    rewrite Hla, Hln, calculateDistance_same. exact H0.
Qed.

Lemma findPointsWithinRadius_grows_witness :
  let here := {| lat := 51.5; lng := 0 |} in
  (In here (findPointsWithinRadius (fun p => p) 51.5 0 [here] 0.2) <->
   In here [here] /\ calculateDistance 51.5 0 51.5 0 <= 0.2)
  /\ (In here (findPointsWithinRadius (fun p => p) 51.5 0 [here] 0.2) ->
      In here (findPointsWithinRadius (fun p => p) 51.5 0 [here] 1))
  /\ (0 <= 0.2 -> In here [here] -> 51.5 = 51.5 -> 0 = 0 ->
      In here (findPointsWithinRadius (fun p => p) 51.5 0 [here] 0.2)).
Proof.
  intros here.
  apply (findPointsWithinRadius_grows (fun p => p) 51.5 0 [here] 0.2 1 here).
  lra.
Defined.

(** X5. Away from the poles and for a non-negative radius, the box of
    [getBoundingBox] contains its centre, is symmetric around it, reaches
    [radiusKm / 111.32] degrees north and south, and at least as many
    degrees east and west. *)
Theorem getBoundingBox_contains_centre centerLat centerLng radiusKm :
  -90 < centerLat < 90 -> 0 <= radiusKm ->
  let box := getBoundingBox centerLat centerLng radiusKm in
  in_box box centerLat centerLng
  /\ maxLat box - centerLat = radiusKm / 111.32
  /\ centerLat - minLat box = radiusKm / 111.32
  /\ maxLng box - centerLng = centerLng - minLng box
  /\ radiusKm / 111.32 <= maxLng box - centerLng.
Proof.
  intros Hlat Hr box. pose proof PI_RGT_0.
  assert (Hcos : 0 < cos (toRadians centerLat)).
  { apply cos_gt_0; unfold toRadians.
    - assert (-90 * (PI / 180) < centerLat * (PI / 180))
        by (apply Rmult_lt_compat_r; lra). lra.
    - assert (centerLat * (PI / 180) < 90 * (PI / 180))
        by (apply Rmult_lt_compat_r; lra). lra. }
  pose proof (COS_bound (toRadians centerLat)) as [_ Hle1].
  assert (Hlat0 : 0 <= radiusKm / 111.32)
    by (apply Rmult_le_pos; [exact Hr | left; apply Rinv_0_lt_compat; lra]).
  assert (Hlng : radiusKm / 111.32 <=
                 radiusKm / (111.32 * cos (toRadians centerLat))).
  { unfold Rdiv. apply Rmult_le_compat_l; [exact Hr|].
    apply Rinv_le_contravar; nra. }
  unfold box, getBoundingBox, in_box. simpl.
  repeat split; lra.
Qed.

Lemma getBoundingBox_contains_centre_witness :
  let box := getBoundingBox 0 0 1 in
  in_box box 0 0
  /\ maxLat box - 0 = 1 / 111.32
  /\ 0 - minLat box = 1 / 111.32
  /\ maxLng box - 0 = 0 - minLng box
  /\ 1 / 111.32 <= maxLng box - 0.
Proof. apply (getBoundingBox_contains_centre 0 0 1); lra. Defined.

(** X6. The box is not a safe filter before the exact distance test: the
    point [radiusKm / 111.25] degrees due north of the centre is within
    [radiusKm] of it and yet north of the box. *)
Theorem getBoundingBox_misses_near_points centerLat centerLng radiusKm :
  0 < radiusKm <= 20000 ->
  let north := centerLat + radiusKm / 111.25 in
  calculateDistance centerLat centerLng north centerLng <= radiusKm
  /\ maxLat (getBoundingBox centerLat centerLng radiusKm) < north.
Proof.
  intros [Hpos Hmax] north. pose proof PI_upper. pose proof PI_RGT_0.
  assert (Hd : 0 <= north - centerLat <= 180) by (unfold north; lra).
  split.
  - rewrite meridian_northward by exact Hd. unfold north.
    replace (centerLat + radiusKm / 111.25 - centerLat) with (radiusKm / 111.25)
      by ring.
    nra.
  - unfold getBoundingBox, north. simpl. lra.
Qed.

Lemma getBoundingBox_misses_near_points_witness :
  let north := 37.7749 + 0.2 / 111.25 in
  calculateDistance 37.7749 (-122.4194) north (-122.4194) <= 0.2
  /\ maxLat (getBoundingBox 37.7749 (-122.4194) 0.2) < north.
Proof.
  apply (getBoundingBox_misses_near_points 37.7749 (-122.4194) 0.2). lra.
Defined.

End HaversineMore.

(** ** Insertion-ordered maps, continued *)

Module OrderedMore.
Import Ordered.
Section AssocMap.
Context {V : Type}.
Implicit Types (m : JsMap (V := V)) (k : string) (v : V).

Lemma get_set_same k v m : get k (set k v m) = Some v.
Proof.
  induction m as [| [k' v'] rest IH]; simpl.
  - now rewrite String.eqb_refl.
  - destruct (String.eqb_spec k k') as [-> | Hne]; simpl.
    + now rewrite String.eqb_refl.
    + destruct (String.eqb_spec k k'); [contradiction | exact IH].
Qed.

Lemma get_set_other k k' v m : k <> k' -> get k' (set k v m) = get k' m.
Proof.
  intros Hne. induction m as [| [k1 v1] rest IH]; simpl.
  - destruct (String.eqb_spec k' k); [congruence | reflexivity].
  - destruct (String.eqb_spec k k1) as [-> | Hk]; simpl.
    + destruct (String.eqb_spec k' k1); [congruence | reflexivity].
    + destruct (String.eqb_spec k' k1); [reflexivity | exact IH].
Qed.

Lemma get_delete_same k m : get k (delete k m) = None.
Proof.
  unfold delete. induction m as [| [k' v'] rest IH]; simpl; [reflexivity|].
  destruct (String.eqb_spec k k') as [-> | Hne]; simpl; [exact IH|].
  destruct (String.eqb_spec k k'); [contradiction | exact IH].
Qed.

Lemma get_delete_other k k' m : k' <> k -> get k' (delete k m) = get k' m.
Proof.
  intros Hne. unfold delete.
  induction m as [| [k1 v1] rest IH]; simpl; [reflexivity|].
  destruct (String.eqb_spec k k1) as [-> | Hk]; simpl.
  - destruct (String.eqb_spec k' k1); [contradiction | exact IH].
  - destruct (String.eqb_spec k' k1); [reflexivity | exact IH].
Qed.

Lemma delete_absent k m : get k m = None -> delete k m = m.
Proof.
  unfold delete. induction m as [| [k' v'] rest IH]; simpl; [reflexivity|].
  destruct (String.eqb_spec k k') as [-> | Hne]; simpl; [discriminate|].
  intros H. now rewrite IH.
Qed.

Lemma In_delete k k' v m : In (k', v) (delete k m) <-> In (k', v) m /\ k' <> k.
Proof.
  unfold delete. rewrite filter_In. simpl. rewrite negb_true_iff.
  destruct (String.eqb_spec k k'); intuition congruence.
Qed.

Lemma In_values_set k v m : In v (values (set k v m)).
Proof.
  unfold values. induction m as [| [k' v'] rest IH]; simpl; [now left|].
  destruct (String.eqb k k'); simpl; [now left | now right].
Qed.

Lemma values_set_inv k v m x :
  In x (values (set k v m)) -> x = v \/ In x (values m).
Proof.
  unfold values. induction m as [| [k' v'] rest IH]; simpl.
  - intros [<- | []]. now left.
  - destruct (String.eqb k k'); simpl.
    + intros [<- | H]; [now left | right; now right].
    + intros [<- | H]; [right; now left|].
      destruct (IH H) as [-> | H']; [now left | right; now right].
Qed.

Lemma get_values k v m : get k m = Some v -> In v (values m).
Proof.
  intros H. apply OrderedFacts.get_In in H. unfold values.
  change v with (snd (k, v)). now apply in_map.
Qed.

End AssocMap.
End OrderedMore.

(** ** Alerts *)

Module AlertsFacts.
Import Alerts.
Local Open Scope R_scope.

(** X7. The statistics of [GET /api/stats] count the alerts in progress
    among the active ones: that count is always 0, whatever the store
    holds, and the active count is the number of active alerts. *)
Theorem stats_never_in_progress alerts callbackRequests :
  inProgress (getStats alerts callbackRequests) = 0%nat
  /\ activeAlerts (getStats alerts callbackRequests) =
     length (getActiveAlerts alerts)
  /\ resolved (getStats alerts callbackRequests) = 0%nat.
Proof.
  unfold getStats. simpl. repeat split.
  - rewrite ListMore.filter_none; [reflexivity|].
    intros a Ha. apply filter_In in Ha as [_ Hact].
    apply bool_decide_eq_true in Hact. apply bool_decide_eq_false.
    rewrite Hact. discriminate.
  - rewrite ListMore.filter_all; [reflexivity|].
    intros a Ha. now apply filter_In in Ha as [_ Hact].
Qed.

(** X8. Updating a stored alert stores and returns the merged alert under
    the same identifier and creation time; [resolvedAt], once set, is
    never changed again, and it is first set when an update carries the
    status "resolved". *)
Theorem updateAlert_resolved_once alerts alertId now updates alert :
  getAlert alerts alertId = Some alert ->
  exists updated,
    updateAlert alerts alertId now updates =
      (Ordered.set alertId updated alerts, Some updated)
    /\ getAlert (fst (updateAlert alerts alertId now updates)) alertId =
       Some updated
    /\ id updated = id alert /\ timestamp updated = timestamp alert
    /\ resolvedAt updated =
       match resolvedAt alert with
       | Some t => Some t
       | None =>
           if bool_decide (upd_status updates = Some (Some "resolved"))
           then Some now else None
       end.
Proof.
  unfold getAlert, updateAlert. intros Hget. rewrite Hget.
  eexists. split; [reflexivity|]. split.
  - simpl. apply OrderedMore.get_set_same.
  - destruct (bool_decide (upd_status updates = Some (Some "resolved")));
      destruct (resolvedAt alert) as [t|] eqn:Hres; simpl;
      rewrite ?Hres; simpl; rewrite ?Hres; auto.
Qed.

Lemma updateAlert_resolved_once_witness :
  exists updated,
    updateAlert [("a1", sample_alert)] "a1" 9%nat resolve_patch =
      (Ordered.set "a1" updated [("a1", sample_alert)], Some updated)
    /\ getAlert (fst (updateAlert [("a1", sample_alert)] "a1" 9%nat
                       resolve_patch)) "a1" = Some updated
    /\ id updated = id sample_alert
    /\ timestamp updated = timestamp sample_alert
    /\ resolvedAt updated = Some 7%nat.
Proof.
  exact (updateAlert_resolved_once [("a1", sample_alert)] "a1" 9%nat
           resolve_patch sample_alert eq_refl).
Defined.

Lemma is_active_status alert :
  is_active alert = true <-> status alert = Some "active".
Proof. unfold is_active. apply bool_decide_eq_true. Qed.

(** X9. A PATCH of a stored alert whose body carries a status other than
    "active", or none at all, records that status and the agent (the
    body's, else the caller); the alert can still be fetched by its
    identifier but is returned neither by [getActiveAlerts] nor by any
    [getAlertsNearLocation]. *)
Theorem patchAlert_hides_alert alerts alertId now bodyStatus bodyAgent userId alert :
  getAlert alerts alertId = Some alert ->
  bodyStatus <> Some "active" ->
  exists updated,
    patchAlert alerts alertId now bodyStatus bodyAgent userId =
      (Ordered.set alertId updated alerts, Some updated)
    /\ status updated = bodyStatus
    /\ assignedAgentId updated =
       (if truthy_str bodyAgent then bodyAgent else Some userId)
    /\ getAlert (Ordered.set alertId updated alerts) alertId = Some updated
    /\ ~ In updated (getActiveAlerts (Ordered.set alertId updated alerts))
    /\ forall lat0 lng0 radiusKm,
         ~ In updated (getAlertsNearLocation (Ordered.set alertId updated alerts)
                         lat0 lng0 radiusKm).
Proof.
  unfold getAlert, patchAlert, updateAlert. intros Hget Hstatus. rewrite Hget.
  eexists. split; [reflexivity|].
  assert (Hst : forall t a, status (setResolvedAt t a) = status a) by reflexivity.
  assert (Hag : forall t a, assignedAgentId (setResolvedAt t a) = assignedAgentId a)
    by reflexivity.
  set (updated := if _ && _ then _ else _).
  assert (Hs : status updated = bodyStatus)
    by (unfold updated; destruct (_ && _); reflexivity).
  assert (Hinactive : is_active updated = false).
  { apply not_true_is_false. rewrite is_active_status. congruence. }
  repeat split.
  - exact Hs.
  - unfold updated. destruct (_ && _); reflexivity.
  - apply OrderedMore.get_set_same.
  - unfold getActiveAlerts. rewrite filter_In. intros [_ H]. congruence.
  - intros lat0 lng0 radiusKm. unfold getAlertsNearLocation.
    rewrite filter_In. intros [_ H]. rewrite Hinactive, andb_false_r in H.
    discriminate.
Qed.

Lemma patchAlert_hides_alert_witness :
  exists updated,
    patchAlert [("a1", sample_alert)] "a1" 9%nat None None "agent-7" =
      (Ordered.set "a1" updated [("a1", sample_alert)], Some updated)
    /\ status updated = None
    /\ assignedAgentId updated = Some "agent-7"
    /\ getAlert (Ordered.set "a1" updated [("a1", sample_alert)]) "a1" =
       Some updated
    /\ ~ In updated (getActiveAlerts
                       (Ordered.set "a1" updated [("a1", sample_alert)]))
    /\ forall lat0 lng0 radiusKm,
         ~ In updated (getAlertsNearLocation
                         (Ordered.set "a1" updated [("a1", sample_alert)])
                         lat0 lng0 radiusKm).
Proof.
  apply (patchAlert_hides_alert [("a1", sample_alert)] "a1" 9%nat None None
           "agent-7" sample_alert eq_refl).
  discriminate.
Defined.

(** X10. An alert created with status "active" can be fetched by its
    identifier, has no agent and no resolution time whatever the input
    carried, is among the active alerts and is found by a proximity query
    at its own place for every radius from 0 on, also at coordinate 0. *)
Theorem createAlert_found_nearby alerts newId now insertAlert radiusKm :
  ins_status insertAlert = Some "active" -> 0 <= radiusKm ->
  let created := snd (createAlert alerts newId now insertAlert) in
  let alerts' := fst (createAlert alerts newId now insertAlert) in
  getAlert alerts' newId = Some created
  /\ assignedAgentId created = None /\ resolvedAt created = None
  /\ In created (getActiveAlerts alerts')
  /\ In created (getAlertsNearLocation alerts'
                   (ins_lat insertAlert) (ins_lng insertAlert) radiusKm).
Proof.
  intros Hstatus Hr created alerts'. subst created alerts'.
  unfold createAlert. simpl. unfold getAlert.
  split; [apply OrderedMore.get_set_same|].
  split; [reflexivity|]. split; [reflexivity|].
  split.
  - unfold getActiveAlerts. apply filter_In.
    split; [apply OrderedMore.In_values_set|].
    apply is_active_status. exact Hstatus.
  - unfold getAlertsNearLocation. apply filter_In.
    split; [apply OrderedMore.In_values_set|]. simpl.
    rewrite HaversineFacts.storage_calculateDistance,
      HaversineFacts.calculateDistance_same.
    destruct (Rle_dec 0 radiusKm); [|contradiction]. simpl.
    apply is_active_status. exact Hstatus.
Qed.

Lemma createAlert_found_nearby_witness :
  let created := snd (createAlert [] "a9" 3%nat sample_insert) in
  let alerts' := fst (createAlert [] "a9" 3%nat sample_insert) in
  getAlert alerts' "a9" = Some created
  /\ assignedAgentId created = None /\ resolvedAt created = None
  /\ In created (getActiveAlerts alerts')
  /\ In created (getAlertsNearLocation alerts' 0 0 0.2).
Proof.
  apply (createAlert_found_nearby [] "a9" 3%nat sample_insert 0.2);
    [reflexivity | lra].
Defined.

End AlertsFacts.

(** ** Push subscriptions *)

Module PushFacts.
Import Storage Push.
Local Open Scope R_scope.

Lemma near_spec lat0 lng0 radiusKm sub :
  near lat0 lng0 radiusKm sub = true <->
  locatable sub = true /\
  exists slat slng, lat sub = Some slat /\ lng sub = Some slng /\
    Storage.calculateDistance lat0 lng0 slat slng <= radiusKm.
Proof.
  unfold near, locatable.
  destruct (truthy_num (lat sub)) eqn:Hla; simpl;
    [|split; [discriminate | intros [H _]; discriminate]].
  destruct (truthy_num (lng sub)) eqn:Hln; simpl;
    [|split; [discriminate | intros [H _]; discriminate]].
  destruct (isActive sub); simpl;
    [|split; [discriminate | intros [H _]; discriminate]].
  apply RoutesFacts.truthy_num_spec in Hla as (sla & -> & _).
  apply RoutesFacts.truthy_num_spec in Hln as (sln & -> & _).
  destruct (Rle_dec _ radiusKm) as [Hd | Hd]; split.
  - intros _. split; [reflexivity|]. now exists sla, sln.
  - reflexivity.
  - discriminate.
  - intros [_ (a & b & [= <-] & [= <-] & Hle)]. contradiction.
Qed.

(** The subscription [updatePushLocation] looks for is not there when
    the user has no locatable subscription. *)
Lemma updatePushLocation_find_none subs user plat plng :
  (forall sub, In sub (Ordered.values subs) -> userId sub = Some user ->
     locatable sub = false) ->
  List.find (fun sub => bool_decide (userId sub = Some user) && isActive sub)
    (getPushSubscriptionsNearLocation subs plat plng 999999) = None.
Proof.
  intros Hall.
  destruct (List.find _ _) as [sub|] eqn:Hfind; [|reflexivity].
  apply find_some in Hfind as [Hq Hp].
  unfold getPushSubscriptionsNearLocation in Hq.
  apply filter_In in Hq as [Hin Hnear].
  apply near_spec in Hnear as [Hloc _].
  apply andb_true_iff in Hp as [Hu _]. apply bool_decide_eq_true in Hu.
  rewrite (Hall sub Hin Hu) in Hloc. discriminate.
Qed.

(** X12. [updatePushLocation] succeeds only when the user has an active
    subscription whose two coordinates are already truthy; when the user
    has none it fails; and whenever it fails the store is unchanged. *)
Theorem updatePushLocation_needs_location subs user plat plng :
  (snd (updatePushLocation subs user plat plng) = true ->
   exists sub, In sub (Ordered.values subs) /\ userId sub = Some user /\
               locatable sub = true)
  /\ ((forall sub, In sub (Ordered.values subs) -> userId sub = Some user ->
         locatable sub = false) ->
      updatePushLocation subs user plat plng = (subs, false))
  /\ (snd (updatePushLocation subs user plat plng) = false ->
      fst (updatePushLocation subs user plat plng) = subs).
Proof.
  split; [|split].
  - unfold updatePushLocation.
    destruct (List.find _ _) as [found|] eqn:Hfind; simpl; [|discriminate].
    intros _. apply find_some in Hfind as [Hq Hp].
    unfold getPushSubscriptionsNearLocation in Hq.
    apply filter_In in Hq as [Hin Hnear].
    apply near_spec in Hnear as [Hloc _].
    apply andb_true_iff in Hp as [Hu _]. apply bool_decide_eq_true in Hu.
    now exists found.
  - intros Hall. unfold updatePushLocation.
    now rewrite (updatePushLocation_find_none subs user plat plng Hall).
  - unfold updatePushLocation.
    destruct (List.find _ _) as [found|]; simpl; [discriminate | reflexivity].
Qed.

Lemma updatePushLocation_needs_location_witness :
  updatePushLocation [("p2", located_sub); ("p3", unlocated_sub)] "eve" 51.5 7 =
  ([("p2", located_sub); ("p3", unlocated_sub)], false).
Proof.
  apply (proj1 (proj2 (updatePushLocation_needs_location
                         [("p2", located_sub); ("p3", unlocated_sub)]
                         "eve" 51.5 7))).
  intros sub [<- | [<- | []]] Hu; [discriminate | reflexivity].
Defined.

(** X13. A user without subscriptions who subscribes without a latitude
    can never be given a location: every later [updatePushLocation] for
    that user fails and leaves the store as it is, and no proximity query
    returns a subscription of that user. *)
Theorem subscribed_without_location_stays_out
    subs newId user json plng0 plat plng lat0 lng0 radiusKm :
  (forall sub, In sub (Ordered.values subs) -> userId sub <> Some user) ->
  let subs' := fst (subscribeToPush subs newId user json None plng0) in
  updatePushLocation subs' user plat plng = (subs', false)
  /\ forall sub, In sub (getPushSubscriptionsNearLocation subs' lat0 lng0 radiusKm) ->
       userId sub <> Some user.
Proof.
  intros Hnew subs'.
  assert (Hmine : forall sub, In sub (Ordered.values subs') ->
            userId sub = Some user -> locatable sub = false).
  { intros sub Hin Hu. unfold subs', subscribeToPush, createPushSubscription in Hin.
    simpl in Hin. apply OrderedMore.values_set_inv in Hin as [-> | Hold].
    - reflexivity.
    - now elim (Hnew sub Hold). }
  split.
  - unfold updatePushLocation.
    now rewrite (updatePushLocation_find_none subs' user plat plng Hmine).
  - intros sub Hq Hu. unfold getPushSubscriptionsNearLocation in Hq.
    apply filter_In in Hq as [Hin Hnear].
    apply near_spec in Hnear as [Hloc _].
    rewrite (Hmine sub Hin Hu) in Hloc. discriminate.
Qed.

Lemma subscribed_without_location_stays_out_witness :
  let subs' := fst (subscribeToPush [("p2", located_sub)] "p3" "eve" "{}"
                      None None) in
  updatePushLocation subs' "eve" 51.5 7 = (subs', false)
  /\ forall sub, In sub (getPushSubscriptionsNearLocation subs' 51.5 7 0.2) ->
       userId sub <> Some "eve".
Proof.
  apply (subscribed_without_location_stays_out [("p2", located_sub)] "p3" "eve"
           "{}" None 51.5 7 51.5 7 0.2).
  intros sub [<- | []]. discriminate.
Defined.

(** X14. [deletePushSubscription] answers [true] exactly when the
    subscription existed; afterwards it cannot be looked up or updated, a
    second deletion answers [false], and the other subscriptions are
    untouched. *)
Theorem deletePushSubscription_forgets subs subId updates :
  let subs' := fst (deletePushSubscription subs subId) in
  (snd (deletePushSubscription subs subId) = true <->
   is_Some (Ordered.get subId subs))
  /\ Ordered.get subId subs' = None
  /\ deletePushSubscription subs' subId = (subs', false)
  /\ updatePushSubscription subs' subId updates = (subs', None)
  /\ forall other, other <> subId ->
       Ordered.get other subs' = Ordered.get other subs.
Proof.
  intros subs'. subst subs'. unfold deletePushSubscription. simpl.
  pose proof (OrderedMore.get_delete_same subId subs) as Hgone.
  split; [apply bool_decide_eq_true|].
  split; [exact Hgone|]. split.
  - rewrite Hgone, (OrderedMore.delete_absent _ _ Hgone).
    reflexivity.
  - split; [unfold updatePushSubscription; now rewrite Hgone|].
    intros other Hne. now apply OrderedMore.get_delete_other.
Qed.

End PushFacts.

(** ** The client registry, continued *)

Module RoutesMore.
Import Routes RoutesFacts.
Local Open Scope R_scope.

(** X15. [notifyAgents] writes the message once to every registered
    client whose role is "agent" and whose socket is open, in registry
    order, and to nobody else. *)
Theorem notifyAgents_outbox (connectedClients : Registry) (m : Outbound) :
  keys_unique connectedClients ->
  notifyAgents connectedClients m =
  List.map (fun e => (fst e, m))
    (List.filter (fun e =>
         bool_decide (role (snd e) = Some "agent")
         && is_open (socket (snd e)))
       connectedClients).
Proof.
  intros Hnd. unfold notifyAgents.
  assert (Hgen : forall part, incl part connectedClients ->
            List.flat_map (fun e =>
                if decide (role (snd e) = Some "agent")
                then sendToClient connectedClients (fst e) m else []) part =
            List.map (fun e => (fst e, m))
              (List.filter (fun e =>
                   bool_decide (role (snd e) = Some "agent")
                   && is_open (socket (snd e))) part)).
  { induction part as [| [k client] rest IH]; intros Hincl; simpl;
      [reflexivity|].
    rewrite IH by (intros e He; apply Hincl; now right).
    destruct (decide (role client = Some "agent")) as [Hr | Hr].
    - rewrite (bool_decide_eq_true_2 _ Hr). simpl.
      rewrite (sendToClient_entry _ k client m Hnd) by (apply Hincl; now left).
      now destruct (is_open (socket client)).
    - now rewrite (bool_decide_eq_false_2 _ Hr). }
  apply Hgen, incl_refl.
Qed.

(** X16. Every frame of the new-alert fan-out goes to a registered
    community client with an open socket and non-zero coordinates, and the
    distance it carries is the distance from the alert to that client,
    between 0 and 0.2 km. *)
Theorem postAlert_frames connectedClients alertId alat alng k msg :
  keys_unique connectedClients ->
  In (k, msg) (postAlert connectedClients alertId alat alng) ->
  exists client clat clng,
    In (k, client) connectedClients
    /\ is_open (socket client) = true
    /\ role client = Some "community"
    /\ lat client = Some clat /\ lng client = Some clng
    /\ clat <> 0 /\ clng <> 0
    /\ msg = alert_new alertId
               (Haversine.calculateDistance alat alng clat clng) true
    /\ 0 <= Haversine.calculateDistance alat alng clat clng <= 0.2.
Proof.
  intros Hnd. unfold postAlert. rewrite in_flat_map.
  intros (nc & Hnc & Hsend).
  apply findClientsWithinRadius_In in Hnc
    as (client & Hin & Hr & Hla & Hln & Hla0 & Hln0 & Hd).
  apply sendToClient_In in Hsend as [[= -> ->] (c & Hc & Ho)].
  rewrite (OrderedFacts.In_get _ _ _ Hnd Hin) in Hc. injection Hc as <-.
  exists client, (nc_lat nc), (nc_lng nc). repeat split; try assumption.
  apply HaversineFacts.calculateDistance_nonneg.
Qed.

Lemma In_set {V} k (v : V) m : In (k, v) (Ordered.set k v m).
Proof.
  induction m as [| [k' v'] rest IH]; simpl; [now left|].
  destruct (String.eqb k k'); [now left | now right].
Qed.

(** X17. A connected client with an open socket that registers as
    community member at non-zero coordinates (or, being one, updates its
    location to them) receives the next alert raised within 0.2 km of
    that place. *)
Theorem presence_then_alert connectedClients k client message
    uid la ln alertId alat alng :
  keys_unique connectedClients ->
  Ordered.get k connectedClients = Some client ->
  is_open (socket client) = true ->
  message = register uid (Some "community") (Some la) (Some ln)
  \/ (message = location_update (Some la) (Some ln)
      /\ role client = Some "community") ->
  la <> 0 -> ln <> 0 ->
  Haversine.calculateDistance alat alng la ln <= 0.2 ->
  let clients' := fst (step connectedClients (Frame k message)) in
  In (k, alert_new alertId (Haversine.calculateDistance alat alng la ln) true)
     (snd (step clients' (PostAlert alertId alat alng))).
Proof.
  intros Hnd Hget Hopen Hmsg Hla Hln Hd clients'.
  pose proof (step_keys_unique connectedClients (Frame k message) Hnd) as Hnd'.
  fold clients' in Hnd'.
  assert (Hentry : exists c', In (k, c') clients' /\
            is_open (socket c') = true /\ role c' = Some "community" /\
            lat c' = Some la /\ lng c' = Some ln).
  { unfold clients'. simpl. unfold handleWebSocketMessage. rewrite Hget.
    destruct Hmsg as [-> | [-> Hrole]]; simpl;
      (eexists; split; [apply In_set|]); simpl; auto. }
  destruct Hentry as (c' & Hin & Ho & Hr & Ela & Eln).
  simpl.
  apply (postAlert_reaches_open clients' alertId alat alng
           {| nc_id := k; nc_lat := la; nc_lng := ln |} c' Hnd');
    try assumption.
  apply findClientsWithinRadius_In. exists c'. simpl. auto 10.
Qed.

Lemma presence_then_alert_witness :
  let clients' :=
    fst (step stale_registry
           (Frame "c2" (register None (Some "community") (Some 51.5) (Some 7)))) in
  In ("c2", alert_new "a1" (Haversine.calculateDistance 51.5 7 51.5 7) true)
     (snd (step clients' (PostAlert "a1" 51.5 7))).
Proof.
  apply (presence_then_alert stale_registry "c2"
           {| socket := OPEN; userId := None; role := None;
              lat := None; lng := None |}
           (register None (Some "community") (Some 51.5) (Some 7))
           None 51.5 7 "a1" 51.5 7).
  - exact stale_registry_keys.
  - reflexivity.
  - reflexivity.
  - now left.
  - lra.
  - lra.
  - rewrite HaversineFacts.calculateDistance_same. lra.
Defined.

(** X18. Once the socket of a client has closed, the client is no longer
    registered, no dispatch writes to it, no proximity query returns it,
    and the other clients are untouched. *)
Theorem closed_client_unreachable connectedClients k :
  let clients' := fst (step connectedClients (Closed k)) in
  Ordered.get k clients' = None
  /\ (forall a msg, is_dispatch a = true -> ~ In (k, msg) (snd (step clients' a)))
  /\ (forall lat0 lng0 radiusKm nc,
        In nc (findClientsWithinRadius clients' lat0 lng0 radiusKm) ->
        nc_id nc <> k)
  /\ (forall other, other <> k ->
        Ordered.get other clients' = Ordered.get other connectedClients).
Proof.
  intros clients'. subst clients'. simpl.
  pose proof (OrderedMore.get_delete_same k connectedClients) as Hgone.
  split; [exact Hgone|]. split; [|split].
  - intros a msg Ha Hsent.
    destruct (dispatch_recipient_open _ _ _ _ Ha Hsent) as (c & Hc & _).
    congruence.
  - intros lat0 lng0 radiusKm nc Hnc.
    apply findClientsWithinRadius_In in Hnc as (c & Hin & _).
    now apply OrderedMore.In_delete in Hin as [_ Hne].
  - intros other Hne. now apply OrderedMore.get_delete_other.
Qed.

Lemma bonn_registry_keys : keys_unique bonn_registry.
Proof.
  unfold keys_unique. simpl.
  repeat (apply List.NoDup_cons; [simpl; intuition discriminate|]).
  apply List.NoDup_nil.
Qed.

Lemma bonn_alert_sent :
  In ("c2", alert_new "a1" (Haversine.calculateDistance 50.7 7.1 50.7 7.1) true)
     (postAlert bonn_registry "a1" 50.7 7.1).
Proof.
  apply (postAlert_reaches_open bonn_registry "a1" 50.7 7.1
           {| nc_id := "c2"; nc_lat := 50.7; nc_lng := 7.1 |} bonn_member
           bonn_registry_keys).
  - apply findClientsWithinRadius_In. exists bonn_member. simpl.
    repeat split; try lra; auto.
    rewrite HaversineFacts.calculateDistance_same. lra.
  - simpl. auto.
  - reflexivity.
Qed.

Lemma postAlert_frames_witness :
  exists client clat clng,
    In ("c2", client) bonn_registry
    /\ is_open (socket client) = true
    /\ role client = Some "community"
    /\ lat client = Some clat /\ lng client = Some clng
    /\ clat <> 0 /\ clng <> 0
    /\ alert_new "a1" (Haversine.calculateDistance 50.7 7.1 50.7 7.1) true =
       alert_new "a1" (Haversine.calculateDistance 50.7 7.1 clat clng) true
    /\ 0 <= Haversine.calculateDistance 50.7 7.1 clat clng <= 0.2.
Proof.
  exact (postAlert_frames bonn_registry "a1" 50.7 7.1 "c2" _
           bonn_registry_keys bonn_alert_sent).
Defined.

Lemma notifyAgents_outbox_witness :
  notifyAgents bonn_registry pong = [("c1", pong)].
Proof.
  exact (notifyAgents_outbox bonn_registry pong bonn_registry_keys).
Defined.

End RoutesMore.

(** ** The signaling server, continued *)

Module SignalingMore.
Import Signaling SignalingFacts.

Lemma sendMessage_In s k message e :
  In e (sendMessage s k message) -> e = (k, message) /\ live s k.
Proof.
  unfold sendMessage, live.
  destruct (connections s !! k) as [c|]; [|intros []].
  destruct (is_open (socket c)) eqn:Ho; [|intros []].
  intros [<- | []]. split; [reflexivity|]. exists c. split; [reflexivity|].
  now destruct (socket c).
Qed.

Lemma broadcastToRoom_In s r message excludeId k m :
  In (k, m) (broadcastToRoom s r message excludeId) ->
  m = message /\ Some k <> excludeId /\ live s k
  /\ exists room, activeRooms s !! r = Some room /\ In k room.
Proof.
  unfold broadcastToRoom.
  destruct (activeRooms s !! r) as [room|]; [|intros []].
  rewrite in_flat_map. intros (x & Hx & Hin).
  destruct (decide (Some x = excludeId)) as [| Hne]; [destruct Hin|].
  apply sendMessage_In in Hin as [[= -> ->] Hlive]. eauto 10.
Qed.

Lemma live_same_connections s s' k :
  connections s' = connections s -> live s k -> live s' k.
Proof. unfold live. now intros ->. Qed.

Lemma handleLeaveCall_recipients s connectionId k m :
  In (k, m) (snd (handleLeaveCall s connectionId)) ->
  k <> connectionId /\ live s k.
Proof.
  unfold handleLeaveCall.
  destruct (connections s !! connectionId) as [c|]; [|intros []].
  destruct (negb (truthy_str (alertId c))); [intros []|].
  cbn [snd]. intros Hin.
  apply broadcastToRoom_In in Hin as (_ & Hne & Hlive & _).
  split; [congruence | exact Hlive].
Qed.

(** X19. Whatever the event, every frame the signaling server writes
    goes to a connection that is registered with an open socket in the
    state the event leaves. *)
Theorem step_writes_to_live_only s e k m :
  In (k, m) (snd (step s e)) -> live (fst (step s e)) k.
Proof.
  destruct e as [cid | fromId msg | cid | cid rs]; cbn [step].
  - unfold onConnection. cbv zeta. cbn [fst snd]. intros Hin.
    now apply sendMessage_In in Hin as [[= -> ->] Hlive].
  - unfold handleSignalingMessage.
    destruct (connections s !! fromId) as [sender|] eqn:Hsender; [|intros []].
    destruct (type msg).
    + unfold handleOffer, handleRelay. destruct (to msg); [|intros []].
      destruct (_ && _); [|intros []]. cbn [fst snd]. intros Hin.
      now apply sendMessage_In in Hin as [[= -> ->] Hlive].
    + unfold handleAnswer, handleRelay. destruct (to msg); [|intros []].
      destruct (_ && _); [|intros []]. cbn [fst snd]. intros Hin.
      now apply sendMessage_In in Hin as [[= -> ->] Hlive].
    + unfold handleIceCandidate, handleRelay. destruct (to msg); [|intros []].
      destruct (_ && _); [|intros []]. cbn [fst snd]. intros Hin.
      now apply sendMessage_In in Hin as [[= -> ->] Hlive].
    + rewrite (handleJoinCall_outbox s fromId msg sender Hsender).
      rewrite in_app_iff. intros [Hin | Hin].
      * now apply broadcastToRoom_In in Hin as (_ & _ & Hlive & _).
      * destruct (decide _); [|destruct Hin].
        destruct (activeRooms _ !! _); [|destruct Hin].
        destruct (List.find _ _); [|destruct Hin].
        destruct (truthy_str _); [|destruct Hin].
        now apply sendMessage_In in Hin as [[= -> ->] Hlive].
    + intros Hin. apply handleLeaveCall_recipients in Hin as [_ Hlive].
      apply (live_same_connections s); [|exact Hlive].
      apply handleLeaveCall_connections.
    + intros [].
  - unfold handleConnectionClose.
    destruct (connections s !! cid) as [c|] eqn:Hc; [|intros []].
    destruct (truthy_str (alertId c)).
    + pose proof (handleLeaveCall_connections s cid) as Hconn.
      pose proof (handleLeaveCall_recipients s cid k m) as Hrec.
      destruct (handleLeaveCall s cid) as [s1 out]. cbn [fst snd] in *.
      intros Hin. destruct (Hrec Hin) as [Hne (ck & Hk & Hopen)].
      exists ck. split; [|exact Hopen]. cbn [connections].
      rewrite Hconn, lookup_delete_ne by congruence. exact Hk.
    + intros [].
  - intros [].
Qed.

Lemma leave_rooms_inhabited (rooms : gmap (option string) (list string))
    (a : option string) (connectionId : string) :
  (forall r room, rooms !! r = Some room -> room <> []) ->
  forall r room,
    match rooms !! a with
    | Some room0 =>
        match Ordered.remove connectionId room0 with
        | [] => delete a rooms
        | _ => <[a := Ordered.remove connectionId room0]> rooms
        end
    | None => rooms
    end !! r = Some room -> room <> [].
Proof.
  intros Hall r room. destruct (rooms !! a) as [room0|] eqn:Ha; [|apply Hall].
  destruct (Ordered.remove connectionId room0) as [| x rest] eqn:Hrm.
  - destruct (decide (a = r)) as [<- | Hne].
    + rewrite lookup_delete_eq. discriminate.
    + rewrite lookup_delete_ne by exact Hne. apply Hall.
  - destruct (decide (a = r)) as [<- | Hne].
    + rewrite lookup_insert_eq. intros [= <-]. discriminate.
    + rewrite lookup_insert_ne by exact Hne. apply Hall.
Qed.

Lemma handleLeaveCall_inhabited s connectionId :
  rooms_inhabited s -> rooms_inhabited (fst (handleLeaveCall s connectionId)).
Proof.
  intros Hall. unfold handleLeaveCall.
  destruct (connections s !! connectionId) as [c|]; [|exact Hall].
  destruct (negb (truthy_str (alertId c))); [exact Hall|].
  intros r room. cbn [fst activeRooms]. now apply leave_rooms_inhabited.
Qed.

Lemma add_nonempty x (l : list string) : Ordered.add x l <> [].
Proof.
  unfold Ordered.add. destruct (Ordered.has x l) eqn:Hh.
  - intros ->. discriminate.
  - destruct l; discriminate.
Qed.

Lemma step_rooms_inhabited s e :
  rooms_inhabited s -> rooms_inhabited (fst (step s e)).
Proof.
  intros Hall. destruct e as [cid | fromId msg | cid | cid rs]; cbn [step].
  - exact Hall.
  - unfold handleSignalingMessage.
    destruct (connections s !! fromId) as [sender|] eqn:Hsender; [|exact Hall].
    destruct (type msg); try exact Hall.
    + unfold handleOffer, handleRelay. destruct (to msg); [|exact Hall].
      now destruct (_ && _).
    + unfold handleAnswer, handleRelay. destruct (to msg); [|exact Hall].
      now destruct (_ && _).
    + unfold handleIceCandidate, handleRelay. destruct (to msg); [|exact Hall].
      now destruct (_ && _).
    + intros r room.
      rewrite (handleJoinCall_rooms s fromId msg sender Hsender r).
      destruct (decide _); [|apply Hall].
      intros [= <-]. apply add_nonempty.
    + now apply handleLeaveCall_inhabited.
  - unfold handleConnectionClose.
    destruct (connections s !! cid) as [c|]; [|exact Hall].
    destruct (truthy_str (alertId c)); [|exact Hall].
    pose proof (handleLeaveCall_inhabited s cid Hall) as H1.
    destruct (handleLeaveCall s cid) as [s1 out]. exact H1.
  - exact Hall.
Qed.

(** X20. After every run of the server from its initial state, every
    room of the index has at least one member. *)
Theorem no_empty_room events : rooms_inhabited (fst (run initial events)).
Proof.
  assert (Hgen : forall s, rooms_inhabited s -> rooms_inhabited (fst (run s events))).
  { induction events as [| e rest IH]; intros s Hs; [exact Hs|].
    cbn [run]. pose proof (step_rooms_inhabited s e Hs) as H1.
    destruct (step s e) as [s1 out1]. cbn [fst] in H1.
    specialize (IH s1 H1). destruct (run s1 rest) as [s2 out2]. exact IH. }
  apply Hgen. intros r room Hr. cbn in Hr. now rewrite lookup_empty in Hr.
Qed.

Lemma step_writes_to_live_only_witness :
  live (fst (step user_waiting (Frame "a" (join "A" "agent")))) "u".
Proof.
  apply (step_writes_to_live_only user_waiting
           (Frame "a" (join "A" "agent")) "u" (agent_available "a")).
  vm_compute. auto.
Defined.

End SignalingMore.

Module SignalingCalls.
Import Signaling SignalingFacts SignalingMore.

(** X21. For a room that exists and holds no empty identifier,
    [initiateAgentCall] answers [true] exactly when a member of the room is
    registered with role "user"; when it answers [false] nothing is
    written; whatever it writes is the incoming-call frame, to a live user
    of that room. *)
Theorem initiateAgentCall_reaches_a_user s alertId agentId room :
  activeRooms s !! Some alertId = Some room -> ~ In "" room ->
  (fst (initiateAgentCall s alertId agentId) = true <->
   exists u, In u room /\ is_user s u = true)
  /\ (fst (initiateAgentCall s alertId agentId) = false ->
      snd (initiateAgentCall s alertId agentId) = [])
  /\ (forall k m, In (k, m) (snd (initiateAgentCall s alertId agentId)) ->
        m = incoming_call agentId (Some alertId)
        /\ In k room /\ is_user s k = true /\ live s k).
Proof.
  intros Hroom Hids. unfold initiateAgentCall. rewrite Hroom.
  destruct (List.find (is_user s) room) as [u|] eqn:Hfind.
  - apply find_some in Hfind as [Hin Hu].
    assert (Hne : u <> "") by (intros ->; contradiction).
    rewrite (proj2 (truthy_str_nonempty u) Hne). cbn [fst snd].
    split; [split; [intros _; now exists u | reflexivity]|].
    split; [discriminate|].
    intros k m Hsent. apply sendMessage_In in Hsent as [[= -> ->] Hlive].
    auto.
  - cbn [fst snd]. split; [|split; [reflexivity | intros k m []]].
    split; [discriminate|]. intros (u & Hin & Hu).
    pose proof (find_none _ _ Hfind u Hin). congruence.
Qed.

Lemma initiateAgentCall_reaches_a_user_witness :
  (fst (initiateAgentCall user_waiting "A" "a") = true <->
   exists u, In u ["u"] /\ is_user user_waiting u = true)
  /\ (fst (initiateAgentCall user_waiting "A" "a") = false ->
      snd (initiateAgentCall user_waiting "A" "a") = [])
  /\ (forall k m, In (k, m) (snd (initiateAgentCall user_waiting "A" "a")) ->
        m = incoming_call "a" (Some "A")
        /\ In k ["u"] /\ is_user user_waiting k = true /\ live user_waiting k).
Proof.
  apply (initiateAgentCall_reaches_a_user user_waiting "A" "a" ["u"]).
  - vm_compute. reflexivity.
  - intros [H | []]. discriminate.
Defined.

(** X22. When the first user of the room is registered but its socket is
    not open, [initiateAgentCall] answers [true] although nothing is
    written. *)
Theorem initiateAgentCall_true_but_silent s alertId agentId room u c :
  activeRooms s !! Some alertId = Some room ->
  List.find (is_user s) room = Some u -> u <> "" ->
  connections s !! u = Some c -> socket c <> OPEN ->
  initiateAgentCall s alertId agentId = (true, []).
Proof.
  intros Hroom Hfind Hne Hc Hclosed. unfold initiateAgentCall.
  rewrite Hroom, Hfind, (proj2 (truthy_str_nonempty u) Hne).
  unfold sendMessage. rewrite Hc. now destruct (socket c).
Qed.

Lemma initiateAgentCall_true_but_silent_witness :
  initiateAgentCall user_unreachable "A" "a" = (true, []).
Proof.
  apply (initiateAgentCall_true_but_silent user_unreachable "A" "a" ["u"] "u"
           {| id := "u"; socket := CLOSING; role := Some "user";
              alertId := Some "A"; userId := None; isConnected := true |});
    try (vm_compute; reflexivity); discriminate.
Defined.

(** X23. A join is announced to the members the room had before the join,
    the joiner excepted, whose sockets are open, once each and in the
    order they joined; nobody else is told. *)
Theorem join_announced_to_previous_members s connectionId message connection :
  connections s !! connectionId = Some connection ->
  List.filter (fun e => is_joined_about connectionId (snd e))
    (snd (handleJoinCall s connectionId message)) =
  List.flat_map (fun member =>
      if decide (member = connectionId) then []
      else sendMessage s member
             (user_joined connectionId (d_role (data message))
                (d_userId (data message))))
    (default [] (activeRooms s !! d_alertId (data message))).
Proof.
  intros Hreg.
  pose proof (handleJoinCall_connections s connectionId message connection Hreg)
    as Hconns.
  pose proof (handleJoinCall_rooms s connectionId message connection Hreg
                (d_alertId (data message))) as Hrooms.
  rewrite decide_True in Hrooms by reflexivity.
  rewrite (handleJoinCall_outbox s connectionId message connection Hreg).
  set (s' := fst (handleJoinCall s connectionId message)) in *.
  set (old := default [] (activeRooms s !! d_alertId (data message))) in *.
  set (frame := user_joined connectionId (d_role (data message))
                  (d_userId (data message))).
  rewrite List.filter_app.
  assert (Havail : forall out : Outbox,
            (forall e, In e out -> exists k a, e = (k, agent_available a)) ->
            List.filter (fun e => is_joined_about connectionId (snd e)) out = []).
  { intros out Hout. apply ListMore.filter_none.
    intros e He. destruct (Hout e He) as (k & a & ->). reflexivity. }
  rewrite (Havail (if decide _ then _ else _)), app_nil_r.
  2:{ intros e He. destruct (decide _); [|destruct He].
      destruct (activeRooms s' !! _); [|destruct He].
      destruct (List.find _ _) as [u|]; [|destruct He].
      destruct (truthy_str _); [|destruct He].
      apply sendMessage_In in He as [-> _]. eauto. }
  rewrite ListMore.filter_all.
  2:{ intros e He. rewrite (broadcastToRoom_msgs _ _ _ _ _ He). simpl.
      apply String.eqb_refl. }
  rewrite (broadcastToRoom_room s' _ _ _ _ Hrooms).
  assert (Hsame : forall part,
            List.flat_map (fun x =>
                if decide (Some x = Some connectionId) then []
                else sendMessage s' x frame) part =
            List.flat_map (fun member =>
                if decide (member = connectionId) then []
                else sendMessage s member frame) part).
  { intros part. apply SetFacts.flat_map_agree. intros x _.
    destruct (decide (x = connectionId)) as [-> | Hne].
    - now rewrite decide_True.
    - rewrite decide_False by congruence.
      unfold sendMessage. now rewrite Hconns, lookup_insert_ne by congruence. }
  rewrite Hsame. unfold Ordered.add.
  destruct (Ordered.has connectionId old); [reflexivity|].
  apply ListMore.flat_map_snoc_skip. now rewrite decide_True.
Qed.

Lemma join_announced_to_previous_members_witness :
  List.filter (fun e => is_joined_about "a" (snd e))
    (snd (handleJoinCall user_waiting "a" (join "A" "agent"))) =
  List.flat_map (fun member =>
      if decide (member = "a") then []
      else sendMessage user_waiting member
             (user_joined "a" (Some "agent") None))
    (default [] (activeRooms user_waiting !! Some "A")).
Proof.
  apply (join_announced_to_previous_members user_waiting "a"
           (join "A" "agent") (fresh_connection "a")).
  vm_compute. reflexivity.
Defined.

(** X24. Closing a registered connection unregisters it and nothing else:
    the count of connections drops by one, the other connections are
    untouched, the connection is out of the room it recorded, and frames
    still arriving from it are ignored. *)
Theorem close_forgets_connection s connectionId connection :
  connections s !! connectionId = Some connection ->
  let s' := fst (step s (Closed connectionId)) in
  connections s' !! connectionId = None
  /\ S (getActiveConnections s') = getActiveConnections s
  /\ (forall other, other <> connectionId ->
        connections s' !! other = connections s !! other)
  /\ (truthy_str (alertId connection) = true ->
      forall room, activeRooms s' !! alertId connection = Some room ->
        ~ In connectionId room)
  /\ (forall message, step s' (Frame connectionId message) = (s', [])).
Proof.
  intros Hreg s'.
  assert (Hconns : connections s' = delete connectionId (connections s)).
  { unfold s'. cbn [step]. unfold handleConnectionClose. rewrite Hreg.
    destruct (truthy_str (alertId connection)); [|reflexivity].
    pose proof (handleLeaveCall_connections s connectionId) as H.
    destruct (handleLeaveCall s connectionId) as [s1 out]. cbn in *.
    now rewrite H. }
  assert (Hgone : connections s' !! connectionId = None)
    by (rewrite Hconns; apply lookup_delete_eq).
  split; [exact Hgone|]. split; [|split; [|split]].
  - unfold getActiveConnections. rewrite Hconns.
    rewrite map_size_delete_Some by eauto.
    assert (size (connections s) <> 0%nat).
    { apply map_size_ne_0_lookup. eauto. }
    lia.
  - intros other Hne. rewrite Hconns. now apply lookup_delete_ne.
  - intros Htruthy room Hroom Hin.
    unfold s' in Hroom. cbn [step] in Hroom.
    unfold handleConnectionClose in Hroom. rewrite Hreg, Htruthy in Hroom.
    pose proof (handleLeaveCall_members s connectionId (alertId connection)
                  room connectionId) as Hmem.
    destruct (handleLeaveCall s connectionId) as [s1 out]. cbn in Hroom, Hmem.
    destruct (Hmem Hroom Hin) as (old & _ & _ & Hout).
    now apply (Hout connection Hreg Htruthy eq_refl).
  - intros message. cbn [step]. unfold handleSignalingMessage.
    now rewrite Hgone.
Qed.

Lemma close_forgets_connection_witness :
  let s' := fst (step user_waiting (Closed "u")) in
  connections s' !! "u" = None
  /\ S (getActiveConnections s') = getActiveConnections user_waiting
  /\ (forall other, other <> "u" ->
        connections s' !! other = connections user_waiting !! other)
  /\ (truthy_str (Some "A") = true ->
      forall room, activeRooms s' !! Some "A" = Some room -> ~ In "u" room)
  /\ (forall message, step s' (Frame "u" message) = (s', [])).
Proof.
  apply (close_forgets_connection user_waiting "u"
           {| id := "u"; socket := OPEN; role := Some "user";
              alertId := Some "A"; userId := None; isConnected := true |}).
  vm_compute. reflexivity.
Defined.

End SignalingCalls.
